(** * ezrpc: wire codec, envelope crypto, client and server dispatch

    A shallow embedding of the TypeScript sources [format.ts] (autoencode,
    autodecode), [payload.ts] (encrypt, decrypt), [client.ts] (RPCClient) and
    [server.ts] (RPCServer), with the properties of the specification stated
    and settled over it.

    JavaScript values are an inductive type; thrown exceptions are carried by
    a result monad whose failure case holds the thrown value; objects used as
    string-keyed maps are [gmap string _]; Uint8Array is [list byte]. *)

From Stdlib Require Import ZArith Lia Ascii String List Bool.
From Stdlib Require Import Strings.Byte.
From Stdlib Require Import Floats.SpecFloat.
From stdpp Require Import base option list strings gmap countable pretty.

Set Warnings "-register-all".

(* ================================================================== *)
(** ** JavaScript values *)

(** A JS number is an IEEE-754 double; [spec_float] distinguishes the two
    zeros, the infinities and NaN, which is all the codec can observe. *)
Definition number := spec_float.

Definition bytes := list byte.

(** The values that reach the codec.  [VDate None] is an Invalid Date (its
    time value is NaN), [VDate (Some t)] holds [t] milliseconds since the
    epoch.  [VError msg props] is an instance of [Error]: [msg] is its own
    non-enumerable [message], [props] are the enumerable own properties that a
    [for ... in] loop visits.  [VObj] is a plain object seen through its
    enumerable string-keyed properties; its keys are ordinary data keys, on
    which [t[b] = x] defines the property [b]. *)
Inductive value : Type :=
  | VUndefined
  | VNull
  | VBool (b : bool)
  | VNum (x : number)
  | VStr (s : string)
  | VBytes (u : bytes)
  | VDate (t : option Z)
  | VArr (l : list value)
  | VObj (m : gmap string value)
  | VError (message : string) (props : gmap string value).

(** ** Exceptions: a computation returns a value or throws one. *)
Inductive result (A : Type) : Type :=
  | Ok (a : A)
  | Throw (e : value).
Arguments Ok {A} a.
Arguments Throw {A} e.

#[global] Instance result_ret : MRet result := fun _ a => Ok a.
#[global] Instance result_bind : MBind result := fun _ _ f r =>
  match r with Ok a => f a | Throw e => Throw e end.
#[global] Instance result_fmap : FMap result := fun _ _ f r =>
  match r with Ok a => Ok (f a) | Throw e => Throw e end.

Definition is_ok {A} (r : result A) : bool :=
  match r with Ok _ => true | Throw _ => false end.

(** [new Error(msg)] *)
Definition new_Error (msg : string) : value := VError msg ∅.

(** [for (const p of l) t.push(f(p))]: the first throw aborts the loop. *)
Fixpoint for_of {A B} (f : A -> result B) (l : list A) : result (list B) :=
  match l with
  | [] => Ok []
  | p :: l' => y ← f p; t ← for_of f l'; Ok (y :: t)
  end.

(** [for (const b in o) t[b] = f(o[b])] starting from [t = {}]. *)
Definition for_in {A B} (f : A -> result B) (o : gmap string A)
  : result (gmap string B) :=
  map_fold (fun b x acc => t ← acc; y ← f x; Ok (<[b := y]> t)) (Ok ∅) o.

(* ================================================================== *)
(** ** String primitives of the host *)

(** [s.startsWith(p)] *)
Definition startsWith (s p : string) : bool := String.prefix p s.

Fixpoint string_drop (n : nat) (s : string) : string :=
  match n, s with
  | O, _ => s
  | S n', String _ s' => string_drop n' s'
  | S _, EmptyString => EmptyString
  end.

(** [s.replace(pat, rep)] with a string pattern: only the first occurrence
    is replaced. *)
Fixpoint replace (pat rep s : string) : string :=
  if String.prefix pat s then rep +:+ string_drop (String.length pat) s
  else match s with
       | EmptyString => EmptyString
       | String c s' => String c (replace pat rep s')
       end.

(* ================================================================== *)
(** ** libsodium: hexadecimal helpers *)

Definition hex_digit (n : N) : ascii :=
  match n with
  | 0 => "0" | 1 => "1" | 2 => "2" | 3 => "3" | 4 => "4" | 5 => "5"
  | 6 => "6" | 7 => "7" | 8 => "8" | 9 => "9" | 10 => "a" | 11 => "b"
  | 12 => "c" | 13 => "d" | 14 => "e" | _ => "f"
  end%N%char.

(** Value of a hexadecimal digit; sodium_hex2bin accepts both cases. *)
Definition hex_value (c : ascii) : option N :=
  let n := N_of_ascii c in
  if ((48 <=? n) && (n <=? 57))%N then Some (n - 48)%N
  else if ((97 <=? n) && (n <=? 102))%N then Some (n - 87)%N
  else if ((65 <=? n) && (n <=? 70))%N then Some (n - 55)%N
  else None.

(** [sodium.to_hex]: two lowercase digits per byte. *)
Fixpoint to_hex (u : bytes) : string :=
  match u with
  | [] => EmptyString
  | b :: u' =>
      let n := Byte.to_N b in
      String (hex_digit (n / 16)) (String (hex_digit (n mod 16)) (to_hex u'))
  end.

Fixpoint hex2bin (s : string) : option bytes :=
  match s with
  | EmptyString => Some []
  | String c1 (String c2 s') =>
      h ← hex_value c1; l ← hex_value c2;
      b ← Byte.of_N (16 * h + l); u ← hex2bin s'; Some (b :: u)
  | String _ EmptyString => None
  end.

(** [sodium.from_hex]: throws on a character that is not a hexadecimal digit
    and on an odd number of digits. *)
Definition from_hex (s : string) : result bytes :=
  match hex2bin s with
  | Some u => Ok u
  | None => Throw (new_Error "invalid input")
  end.

(* ================================================================== *)
(** ** ECMAScript Date: time values and the ISO-8601 date-time format *)

Module JSDate.
Local Open Scope Z_scope.

Definition msPerDay : Z := 86400000.
Definition maxTime : Z := 8640000000000000.

(** A time value is valid when TimeClip leaves it unchanged. *)
Definition valid_time (t : Z) : bool := (- maxTime <=? t) && (t <=? maxTime).

(** Proleptic Gregorian calendar: day number (days since 1970-01-01) to
    (year, month, day) and back. *)
Definition civil_from_days (z : Z) : Z * Z * Z :=
  let z := z + 719468 in
  let era := z / 146097 in
  let doe := z mod 146097 in
  let yoe := (doe - doe / 1460 + doe / 36524 - doe / 146096) / 365 in
  let doy := doe - (365 * yoe + yoe / 4 - yoe / 100) in
  let mp := (5 * doy + 2) / 153 in
  let d := doy - (153 * mp + 2) / 5 + 1 in
  let m := if mp <? 10 then mp + 3 else mp - 9 in
  let y := yoe + era * 400 + (if m <=? 2 then 1 else 0) in
  (y, m, d).

Definition days_from_civil (y m d : Z) : Z :=
  let y := y - (if m <=? 2 then 1 else 0) in
  let era := y / 400 in
  let yoe := y mod 400 in
  let doy := (153 * (if 2 <? m then m - 3 else m + 9) + 2) / 5 + d - 1 in
  let doe := yoe * 365 + yoe / 4 - yoe / 100 + doy in
  era * 146097 + doe - 719468.

Definition digit_char (n : Z) : ascii := ascii_of_N (48 + Z.to_N n).

Definition digit_value (c : ascii) : option Z :=
  let n := Z.of_N (N_of_ascii c) in
  if (48 <=? n) && (n <=? 57) then Some (n - 48) else None.

(** [digits w n]: the [w] low decimal digits of [n], most significant first. *)
Fixpoint digits (w : nat) (n : Z) : string :=
  match w with
  | O => EmptyString
  | S w' => String (digit_char ((n / 10 ^ Z.of_nat w') mod 10)) (digits w' n)
  end.

Fixpoint read_digits (w : nat) (s : string) (acc : Z) : option (Z * string) :=
  match w with
  | O => Some (acc, s)
  | S w' =>
      match s with
      | String c s' => d ← digit_value c; read_digits w' s' (10 * acc + d)
      | EmptyString => None
      end
  end.

Definition expect (c : ascii) (s : string) : option string :=
  match s with
  | String c' s' => if Ascii.eqb c c' then Some s' else None
  | EmptyString => None
  end.

Definition year_string (y : Z) : string :=
  if (0 <=? y) && (y <=? 9999) then digits 4 y
  else if 0 <=? y then String "+" (digits 6 y)
  else String "-" (digits 6 (- y)).

(** The text [Date.prototype.toISOString] produces for a valid time value:
    YYYY-MM-DDTHH:mm:ss.sssZ, with a signed six-digit year outside 0..9999. *)
Definition iso_string (t : Z) : string :=
  let '(y, m, d) := civil_from_days (t / msPerDay) in
  let r := t mod msPerDay in
  year_string y +:+ String "-" (digits 2 m +:+ String "-" (digits 2 d +:+
  String "T" (digits 2 (r / 3600000) +:+ String ":" (digits 2 (r / 60000 mod 60) +:+
  String ":" (digits 2 (r / 1000 mod 60) +:+ String "." (digits 3 (r mod 1000) +:+
  "Z")))))).

Definition read_year (s : string) : option (Z * string) :=
  match s with
  | String "+" s' => read_digits 6 s' 0
  | String "-" s' =>
      '(y, s'') ← read_digits 6 s' 0;
      if y =? 0 then None else Some (- y, s'')
  | _ => read_digits 4 s 0
  end.

(** [Date.parse] on the complete UTC form of the date-time string format;
    every other text is unparseable and yields NaN ([None]). *)
Definition parse (s : string) : option Z :=
  '(y, s) ← read_year s;
  s ← expect "-" s; '(m, s) ← read_digits 2 s 0;
  s ← expect "-" s; '(d, s) ← read_digits 2 s 0;
  s ← expect "T" s; '(h, s) ← read_digits 2 s 0;
  s ← expect ":" s; '(mi, s) ← read_digits 2 s 0;
  s ← expect ":" s; '(sec, s) ← read_digits 2 s 0;
  s ← expect "." s; '(ms, s) ← read_digits 3 s 0;
  s ← expect "Z" s;
  if negb (String.eqb s EmptyString) then None
  else if negb ((1 <=? m) && (m <=? 12) && (1 <=? d) && (d <=? 31)) then None
  else if negb ((mi <=? 59) && (sec <=? 59)) then None
  else if negb ((h <=? 23) || ((h =? 24) && (mi =? 0) && (sec =? 0) && (ms =? 0)))
  then None
  else
    let t := days_from_civil y m d * msPerDay
             + h * 3600000 + mi * 60000 + sec * 1000 + ms in
    if valid_time t then Some t else None.

End JSDate.

(** [d.toISOString()]: throws a RangeError on an Invalid Date. *)
Definition toISOString (t : option Z) : result string :=
  match t with
  | Some t => if JSDate.valid_time t then Ok (JSDate.iso_string t)
              else Throw (new_Error "Invalid time value")
  | None => Throw (new_Error "Invalid time value")
  end.

(** [new Date(s)] for a string [s]: never throws; an unparseable text gives
    an Invalid Date. *)
Definition new_Date (s : string) : value := VDate (JSDate.parse s).

(* ================================================================== *)
(** ** Wire codec (format.ts) *)

(** The double that holds the integer [z]. *)
Definition number_of_Z (z : Z) : number := binary_normalize 53 1024 z 0 false.

(** The enumerable properties of a Uint8Array: its indices, as decimal
    strings, mapped to the numeric value of each element. *)
Definition typed_array_props (u : bytes) : gmap string value :=
  list_to_map
    (imap (fun i b => (pretty i, VNum (number_of_Z (Z.of_N (Byte.to_N b))))) u).

Fixpoint autoencode (o : value) : result value :=
  match o with
  | VNull => Ok VNull
  | VBytes u => Ok (VStr ("hex$" +:+ to_hex u))
  | VArr l => t ← for_of autoencode l; Ok (VArr t)
  | VDate d => s ← toISOString d; Ok (VStr ("date$" +:+ s))
  | VObj m => t ← for_in autoencode m; Ok (VObj t)
  | VError _ props => t ← for_in autoencode props; Ok (VObj t)
  | VUndefined | VBool _ | VNum _ | VStr _ => Ok o
  end.

Fixpoint autodecode (e : value) : result value :=
  match e with
  | VNull => Ok VNull
  | VStr s =>
      if startsWith s "hex$" then
        u ← from_hex (replace "hex$" "" s); Ok (VBytes u)
      else if startsWith s "date$" then
        Ok (new_Date (replace "date$" "" s))
      else Ok e
  | VArr l => o ← for_of autodecode l; Ok (VArr o)
  | VObj m => o ← for_in autodecode m; Ok (VObj o)
  | VError _ props => o ← for_in autodecode props; Ok (VObj o)
  (* typeof is "object" for a Uint8Array and for a Date too: the loop visits
     the indices of the former, whose elements are numbers and pass through
     unchanged, and nothing in the latter. *)
  | VBytes u => Ok (VObj (typed_array_props u))
  | VDate _ => Ok (VObj ∅)
  | VUndefined | VBool _ | VNum _ => Ok e
  end.

(* ================================================================== *)
(** ** JSON.stringify and JSON.parse

    A JSON text is identified with the document it denotes, so that
    [JSON.parse] of the text [JSON.stringify] wrote is the embedding of that
    document into the values.  What [JSON.stringify] loses is kept: undefined
    properties are dropped, undefined array elements and non-finite numbers
    become null, negative zero is written as 0. *)

Inductive json : Type :=
  | JNull
  | JBool (b : bool)
  | JNum (x : number)
  | JString (s : string)
  | JArray (l : list json)
  | JObject (m : gmap string json).

Definition json_number (x : number) : json :=
  match x with
  | S754_zero _ => JNum (S754_zero false)
  | S754_finite _ _ _ => JNum x
  | S754_infinity _ | S754_nan => JNull
  end.

(** SerializeJSONProperty: [None] stands for the result undefined. *)
Fixpoint JSON_stringify (v : value) : option json :=
  match v with
  | VUndefined => None
  | VNull => Some JNull
  | VBool b => Some (JBool b)
  | VNum x => Some (json_number x)
  | VStr s => Some (JString s)
  | VBytes u =>
      Some (JObject (list_to_map
        (imap (fun i b => (pretty i, JNum (number_of_Z (Z.of_N (Byte.to_N b))))) u)))
  | VDate d =>
      match toISOString d with
      | Ok s => Some (JString s)
      | Throw _ => Some JNull
      end
  | VArr l => Some (JArray ((fun x => default JNull (JSON_stringify x)) <$> l))
  | VObj m => Some (JObject (omap JSON_stringify m))
  | VError _ props => Some (JObject (omap JSON_stringify props))
  end.

Fixpoint JSON_parse (j : json) : value :=
  match j with
  | JNull => VNull
  | JBool b => VBool b
  | JNum x => VNum x
  | JString s => VStr s
  | JArray l => VArr (JSON_parse <$> l)
  | JObject m => VObj (JSON_parse <$> m)
  end.

(* ================================================================== *)
(** ** libsodium: random bytes and the public-key box

    libsodium is not part of the repository.  Its box is taken through the
    interface below, in the symbolic (ideal) reading of its contract: a
    ciphertext opens exactly when it was sealed for this recipient, with this
    nonce, by the holder of the secret key behind the claimed sender key, and
    a ciphertext determines what was sealed.  The random generator is a state
    that each draw advances. *)

Definition crypto_box_NONCEBYTES : nat := 24.
Definition crypto_box_KEYBYTES : nat := 32.

Class Sodium := {
  rng : Type;
  randombytes_buf : nat -> rng -> bytes * rng;
  randombytes_buf_length : forall n r, length (randombytes_buf n r).1 = n;
  (** the public key that belongs to a secret key *)
  crypto_scalarmult_base : bytes -> bytes;
  crypto_scalarmult_base_length : forall sk,
    length sk = crypto_box_KEYBYTES ->
    length (crypto_scalarmult_base sk) = crypto_box_KEYBYTES;
  (** seal plaintext, nonce, recipient public key, sender secret key *)
  box_seal : json -> bytes -> bytes -> bytes -> option bytes;
  (** open ciphertext, nonce, sender public key, recipient secret key *)
  box_open : bytes -> bytes -> bytes -> bytes -> option json;
  box_seal_defined : forall m n pk sk,
    length n = crypto_box_NONCEBYTES ->
    length pk = crypto_box_KEYBYTES ->
    length sk = crypto_box_KEYBYTES ->
    is_Some (box_seal m n pk sk);
  box_open_spec : forall c n pkS skR m,
    length skR = crypto_box_KEYBYTES ->
    box_open c n pkS skR = Some m <->
    exists skS, length skS = crypto_box_KEYBYTES
             /\ pkS = crypto_scalarmult_base skS
             /\ box_seal m n (crypto_scalarmult_base skR) skS = Some c;
  (** a ciphertext determines the plaintext, the nonce and the two parties
      (the shared key is the same in both directions) *)
  box_seal_inj : forall m n pk sk m' n' pk' sk' c,
    box_seal m n pk sk = Some c -> box_seal m' n' pk' sk' = Some c ->
    m = m' /\ n = n'
    /\ ((pk = pk' /\ crypto_scalarmult_base sk = crypto_scalarmult_base sk')
        \/ (pk = crypto_scalarmult_base sk' /\ pk' = crypto_scalarmult_base sk))
}.

(** [(sk, pk)] is a key pair as [crypto_box_keypair] makes them. *)
Definition box_keypair `{Sodium} (sk pk : bytes) : Prop :=
  length sk = crypto_box_KEYBYTES /\ pk = crypto_scalarmult_base sk.

(** The error [crypto_box_open_easy] throws when authentication fails. *)
Definition AuthenticationFailure : value :=
  new_Error "incorrect key pair for the given ciphertext".

Definition crypto_box_easy `{Sodium}
    (plaintext : option json) (nonce pk sk : bytes) : result bytes :=
  match plaintext with
  | None => Throw (new_Error "unsupported input type for message")
  | Some m =>
      match box_seal m nonce pk sk with
      | Some c => Ok c
      | None => Throw (new_Error "invalid input length")
      end
  end.

Definition crypto_box_open_easy `{Sodium}
    (ciphertext nonce pk sk : bytes) : result json :=
  match box_open ciphertext nonce pk sk with
  | Some m => Ok m
  | None => Throw AuthenticationFailure
  end.

(* ================================================================== *)
(** ** Envelope crypto (payload.ts) *)

(** [encrypt] draws its nonce from the random generator, whose state it
    returns advanced; a throw before the draw leaves the state as it was. *)
Definition encrypt `{Sodium} (input : value) (recipientKey secretKey : bytes)
    (r : rng) : result bytes * rng :=
  match autoencode input with
  | Throw e => (Throw e, r)
  | Ok o =>
      let plaintext := JSON_stringify o in
      let '(outputNonce, r') := randombytes_buf crypto_box_NONCEBYTES r in
      match crypto_box_easy plaintext outputNonce recipientKey secretKey with
      | Throw e => (Throw e, r')
      | Ok outputCipher => (Ok (outputNonce ++ outputCipher)%list, r')
      end
  end.

Definition decrypt `{Sodium} (payload senderKey secretKey : bytes)
    : result value :=
  let nonce := take crypto_box_NONCEBYTES payload in
  let ciphertext := drop crypto_box_NONCEBYTES payload in
  message ← crypto_box_open_easy ciphertext nonce senderKey secretKey;
  let e := JSON_parse message in
  autodecode e.

(** A [TypeError], as thrown on a property read of undefined or null and by
    libsodium on an argument that is not a byte buffer. *)
Definition TypeError (msg : string) : value := new_Error msg.

(** [decrypt] applied to whatever a cast [as Uint8Array] let through: on
    anything but a byte buffer the slices or libsodium's argument check
    throw. *)
Definition decrypt_any `{Sodium} (payload : value) (senderKey secretKey : bytes)
    : result value :=
  match payload with
  | VBytes u => decrypt u senderKey secretKey
  | _ => Throw (TypeError "unsupported input type for ciphertext")
  end.

(** The property read [v.k], for the keys the dispatchers read ([id],
    [payload]). *)
Definition get_prop (v : value) (k : string) : result value :=
  match v with
  | VUndefined | VNull => Throw (TypeError "Cannot read properties")
  | VObj m => Ok (default VUndefined (m !! k))
  | VError msg props =>
      Ok (if String.eqb k "message" then VStr msg
          else default VUndefined (props !! k))
  | VBytes u => Ok (default VUndefined (typed_array_props u !! k))
  | VBool _ | VNum _ | VStr _ | VDate _ | VArr _ => Ok VUndefined
  end.

(* ================================================================== *)
(** ** HTTP exchange, as the client and the server see it *)

(** A request or response body is a text; [None] is a text that is not JSON
    (or no body), on which [JSON.parse] and [r.json()] throw. *)
Record request := { req_url : string; req_body : option json }.
Record response := {
  resp_status : nat; resp_statusText : string; resp_body : option json }.

Definition SyntaxError : value := new_Error "Unexpected token in JSON".

Definition JSON_parse_text (body : option json) : result value :=
  match body with
  | Some j => Ok (JSON_parse j)
  | None => Throw SyntaxError
  end.

(* ================================================================== *)
(** ** Client (client.ts) *)

Module RPCClient.
Section Client.
Context `{Sodium}.

(** The four protected fields; [None] is undefined. *)
Record t := {
  userID : option string;
  privateKey : option bytes;
  publicKey : option bytes;
  serverKey : option bytes;
}.

(** A client as the constructor leaves it. *)
Definition init : t :=
  {| userID := None; privateKey := None; publicKey := None; serverKey := None |}.

Definition isloggedIn (c : t) : bool :=
  bool_decide (userID c <> None) && bool_decide (privateKey c <> None)
  && bool_decide (publicKey c <> None) && bool_decide (serverKey c <> None).

Definition logout (_ : t) : t :=
  {| userID := None; privateKey := None; publicKey := None; serverKey := None |}.

(** [setKeys] of the test client: the four assignments. *)
Definition setKeys (uid : string) (pk sk srv : bytes) (_ : t) : t :=
  {| userID := Some uid; publicKey := Some pk; privateKey := Some sk;
     serverKey := Some srv |}.

(** The error an encrypted call is rejected with when not logged in. *)
Definition NotAuthenticated : value := new_Error "".

Variable baseURL : string.
(** [fetch], answering each request. *)
Variable fetch : request -> response.

(** [rawCall] returns its result and the requests it issued. *)
Definition rawCall (rpcName : string) (data : value)
    : result value * list request :=
  (* the default parameter [data = {}] *)
  let data := match data with VUndefined => VObj ∅ | _ => data end in
  match autoencode data with
  | Throw e => (Throw e, [])
  | Ok w =>
      let req := {| req_url := baseURL +:+ "/" +:+ rpcName;
                    req_body := JSON_stringify w |} in
      let r := fetch req in
      (j ← JSON_parse_text (resp_body r);
       rData ← autodecode j;
       if negb (resp_status r =? 200)%nat
       then Throw (new_Error (resp_statusText r))
       else Ok rData,
       [req])
  end.

Definition call (name : string) (args : value) : result value * list request :=
  rawCall name args.

(** [encryptedCall(decl)(args)]: result, requests issued, generator state. *)
Definition encryptedCall (c : t) (name : string) (args : value) (r : rng)
    : result value * list request * rng :=
  if negb (isloggedIn c) then (Throw NotAuthenticated, [], r)
  else
    let a := match args with VUndefined => VObj ∅ | _ => args end in
    let serverKey := default [] (serverKey c) in
    let privateKey := default [] (privateKey c) in
    match encrypt a serverKey privateKey r with
    | (Throw e, r') => (Throw e, [], r')
    | (Ok encryptedBody, r') =>
        let '(resp, reqs) :=
          rawCall name (VObj (<["payload" := VBytes encryptedBody]>
                              (<["id" := from_option VStr VUndefined (userID c)]> ∅))) in
        (resp ← resp; decrypt_any resp serverKey privateKey, reqs, r')
    end.

End Client.
End RPCClient.

(* ================================================================== *)
(** ** Server (server.ts) *)

Module RPCServer.

(** [RPCUser]: what the server needs of a user record. *)
Record RPCUser := { id : string; user_publicKey : bytes }.

(** What the processing of one request does that can be seen from outside:
    responses written and invocations of the registered handler, with the
    identity and input it was invoked on ([None] is undefined). *)
Inductive event :=
  | Responded (status : nat) (body : option json)
  | HandlerInvoked (identity : option RPCUser) (input : value).

Definition is_response (ev : event) : bool :=
  match ev with Responded _ _ => true | HandlerInvoked _ _ => false end.

(** The body of the fixed 401 response. *)
Definition no_such_user_body : option json :=
  Some (JObject {["message" := JString "No such user found."]}).

Definition ERR_HTTP_HEADERS_SENT : value :=
  new_Error "Cannot set headers after they are sent to the client".

Section Server.
Context `{Sodium}.

(** The state one request's processing threads through: its trace and the
    random generator. *)
Record state := { trace : list event; gen : rng }.

Definition io (A : Type) : Type := state -> result A * state.

Definition io_ret {A} (a : A) : io A := fun s => (Ok a, s).
Definition io_bind {A B} (m : io A) (k : A -> io B) : io B := fun s =>
  match m s with
  | (Ok a, s') => k a s'
  | (Throw e, s') => (Throw e, s')
  end.
Definition lift {A} (r : result A) : io A := fun s => (r, s).
(** [try { m } catch (error) { h(error) }] *)
Definition try_catch {A} (m : io A) (h : value -> io A) : io A := fun s =>
  match m s with
  | (Ok a, s') => (Ok a, s')
  | (Throw e, s') => h e s'
  end.

#[local] Instance io_mret : MRet io := @io_ret.
#[local] Instance io_mbind : MBind io := fun _ _ k m => io_bind m k.

(** [res.status(status).json(v)]: Express throws when a response has
    already been sent. *)
Definition res_json (status : nat) (v : value) : io unit := fun s =>
  if existsb is_response (trace s)
  then (Throw ERR_HTTP_HEADERS_SENT, s)
  else (Ok tt, {| trace := trace s ++ [Responded status (JSON_stringify v)];
                  gen := gen s |}).

(** [await fn(identity, input)] *)
Definition invoke (fn : option RPCUser -> value -> result value)
    (identity : option RPCUser) (input : value) : io value := fun s =>
  (fn identity input,
   {| trace := trace s ++ [HandlerInvoked identity input]; gen := gen s |}).

Definition io_encrypt (input : value) (recipientKey secretKey : bytes)
    : io bytes := fun s =>
  let '(r, g) := encrypt input recipientKey secretKey (gen s) in
  (r, {| trace := trace s; gen := g |}).

(** [identity.publicKey], a TypeError when [identity] is undefined. *)
Definition identity_publicKey (identity : option RPCUser) : result bytes :=
  match identity with
  | Some u => Ok (user_publicKey u)
  | None => Throw (TypeError "Cannot read properties of undefined")
  end.

Variable serverPrivateKey : bytes.
Variable getUser : value -> result RPCUser.

(** The request callback [handle] installs; [fn] ignores its first argument
    there. *)
Definition handle (fn : value -> result value) (body : option json) : io unit :=
  try_catch
    (decodedBody ← lift (j ← JSON_parse_text body; autodecode j);
     output ← invoke (fun _ => fn) None decodedBody;
     w ← lift (autoencode output);
     res_json 200 w)
    (fun error =>
     w ← lift (autoencode error);
     res_json 500 w).

(** The inner [try] of [encryptedHandle]: [identity] and [decryptedPayload]
    are assigned in turn, and the [catch] writes the 401 and falls through
    with what had been assigned. *)
Definition resolve (decodedBody : value) : io (option RPCUser * value) :=
  let no_such_user :=
    w ← lift (autoencode (VObj {["message" := VStr "No such user found."]}));
    res_json 401 w in
  match (i ← get_prop decodedBody "id"; getUser i) with
  | Throw _ => no_such_user;; io_ret (None, VUndefined)
  | Ok identity =>
      match (p ← get_prop decodedBody "payload";
             decrypt_any p (user_publicKey identity) serverPrivateKey) with
      | Throw _ => no_such_user;; io_ret (Some identity, VUndefined)
      | Ok decryptedPayload => io_ret (Some identity, decryptedPayload)
      end
  end.

(** The request callback [encryptedHandle] installs. *)
Definition encryptedHandle (fn : option RPCUser -> value -> result value)
    (body : option json) : io unit :=
  try_catch
    (decodedBody ← lift (j ← JSON_parse_text body; autodecode j);
     '(identity, decryptedPayload) ← resolve decodedBody;
     output ← invoke fn identity decryptedPayload;
     let output := match output with VUndefined => VObj ∅ | _ => output end in
     pk ← lift (identity_publicKey identity);
     encryptedOutput ← io_encrypt output pk serverPrivateKey;
     w ← lift (autoencode (VBytes encryptedOutput));
     res_json 200 w)
    (fun error =>
     w ← lift (autoencode error);
     res_json 500 w).

(** Processing one request from a fresh response object. *)
Definition run {A} (m : io A) (g : rng) : result A * list event :=
  let '(r, s) := m {| trace := []; gen := g |} in (r, trace s).

Definition handler_invoked (tr : list event) : bool :=
  existsb (fun ev => negb (is_response ev)) tr.

Definition responses (tr : list event) : list event := filter is_response tr.

End Server.
End RPCServer.

(* ================================================================== *)
(** ** The value universes of the specification *)

(** Every property of the object satisfies [p]. *)
Definition map_all {A} (p : A -> bool) (m : gmap string A) : bool :=
  map_fold (fun _ x acc => p x && acc) true m.

(** A string that does not begin with a reserved tag. *)
Definition untagged (s : string) : bool :=
  negb (startsWith s "hex$") && negb (startsWith s "date$").

(** The supported values: finite nestings of null, booleans, numbers,
    untagged strings, byte buffers, timestamps (valid dates), sequences and
    string-keyed mappings. *)
Fixpoint supported (v : value) : bool :=
  match v with
  | VNull | VBool _ | VNum _ | VBytes _ => true
  | VStr s => untagged s
  | VDate (Some t) => JSDate.valid_time t
  | VDate None => false
  | VArr l => forallb supported l
  | VObj m => map_all supported m
  | VUndefined | VError _ _ => false
  end.

(** The wire values: null, booleans, numbers, strings, arrays and plain
    objects of wire values; no byte buffer and no date. *)
Fixpoint wire (v : value) : bool :=
  match v with
  | VNull | VBool _ | VNum _ | VStr _ => true
  | VArr l => forallb wire l
  | VObj m => map_all wire m
  | VUndefined | VBytes _ | VDate _ | VError _ _ => false
  end.

(** A number JSON can write and read back: finite, and not negative zero. *)
Definition json_exact (x : number) : bool :=
  match x with
  | S754_zero s => negb s
  | S754_finite _ _ _ => true
  | S754_infinity _ | S754_nan => false
  end.

(** Every number inside the value is one JSON writes exactly. *)
Fixpoint json_numbers (v : value) : bool :=
  match v with
  | VNum x => json_exact x
  | VArr l => forallb json_numbers l
  | VObj m | VError _ m => map_all json_numbers m
  | VUndefined | VNull | VBool _ | VStr _ | VBytes _ | VDate _ => true
  end.

(** Size of a value, the measure of the induction on values. *)
Fixpoint vsize (v : value) : nat :=
  match v with
  | VArr l => S (sum_list (vsize <$> l))
  | VObj m | VError _ m => S (map_fold (fun _ x acc => vsize x + acc) 0 m)
  | _ => 1
  end.

Fixpoint jsize (j : json) : nat :=
  match j with
  | JArray l => S (sum_list (jsize <$> l))
  | JObject m => S (map_fold (fun _ x acc => jsize x + acc) 0 m)
  | _ => 1
  end.

(** Every character of the string is a hexadecimal digit. *)
Fixpoint all_hex (s : string) : bool :=
  match s with
  | EmptyString => true
  | String c s' => match hex_value c with Some _ => all_hex s' | None => false end
  end.

(* ================================================================== *)
(** ** A symbolic box

    An implementation of the [Sodium] interface in which a box is the
    tuple (plaintext, nonce, recipient key, sender key) written out as
    bytes, and the random generator is a counter.  It shows the interface
    can be met and lets the envelope functions run on concrete inputs. *)

Module Symbolic.

#[global] Instance byte_eq_dec : EqDecision byte := Byte.byte_eq_dec.

Definition leaf : Type := (bool + string) + (nat * bool * positive * Z).

Definition number_code (x : number) : nat * bool * positive * Z :=
  match x with
  | S754_zero s => (0, s, 1%positive, 0%Z)
  | S754_infinity s => (1, s, 1%positive, 0%Z)
  | S754_nan => (2, false, 1%positive, 0%Z)
  | S754_finite s m e => (3, s, m, e)
  end.

Definition code_number (c : nat * bool * positive * Z) : number :=
  match c with
  | (0, s, _, _) => S754_zero s
  | (1, s, _, _) => S754_infinity s
  | (2, _, _, _) => S754_nan
  | (_, s, m, e) => S754_finite s m e
  end.

Fixpoint json_tree (j : json) : gen_tree leaf :=
  match j with
  | JNull => GenNode 3 []
  | JBool b => GenLeaf (inl (inl b))
  | JNum x => GenLeaf (inr (number_code x))
  | JString s => GenLeaf (inl (inr s))
  | JArray l => GenNode 0 (json_tree <$> l)
  | JObject m =>
      GenNode 1 (map_fold (fun k x acc =>
        GenNode 2 [GenLeaf (inl (inr k)); json_tree x] :: acc) [] m)
  end.

Fixpoint tree_json (t : gen_tree leaf) : json :=
  match t with
  | GenLeaf (inl (inl b)) => JBool b
  | GenLeaf (inl (inr s)) => JString s
  | GenLeaf (inr c) => JNum (code_number c)
  | GenNode 0 l => JArray (tree_json <$> l)
  | GenNode 1 l =>
      JObject (list_to_map ((fun p =>
        match p with
        | GenNode _ [GenLeaf (inl (inr k)); t'] => (k, tree_json t')
        | _ => (EmptyString, JNull)
        end) <$> l))
  | GenNode _ _ => JNull
  end.

Fixpoint pos_bytes (p : positive) : bytes :=
  match p with
  | xH => []
  | xO p' => x00 :: pos_bytes p'
  | xI p' => x01 :: pos_bytes p'
  end.

Fixpoint bytes_pos (c : bytes) : positive :=
  match c with
  | [] => xH
  | b :: c' => if decide (b = x00) then xO (bytes_pos c') else xI (bytes_pos c')
  end.

(** The content of a box. *)
Definition box_content : Type := gen_tree leaf * list N * list N * list N.

Definition box_bytes (m : json) (n pkR pkS : bytes) : bytes :=
  pos_bytes (encode ((json_tree m, Byte.to_N <$> n, Byte.to_N <$> pkR,
                      Byte.to_N <$> pkS) : box_content)).

(** The public key of a secret key: here, its mirror image. *)
Definition scalarmult_base (sk : bytes) : bytes := reverse sk.

Definition seal (m : json) (n pk sk : bytes) : option bytes :=
  if decide (length n = crypto_box_NONCEBYTES /\ length pk = crypto_box_KEYBYTES
             /\ length sk = crypto_box_KEYBYTES)
  then Some (box_bytes m n pk (scalarmult_base sk))
  else None.

Definition open (c n pkS skR : bytes) : option json :=
  match decode (bytes_pos c) : option box_content with
  | Some (t, _, _, _) =>
      if decide (seal (tree_json t) n (scalarmult_base skR) (reverse pkS) = Some c)
      then Some (tree_json t) else None
  | None => None
  end.

(** [n] bytes that write the counter in base 256, low byte first. *)
Fixpoint counter_bytes (n : nat) (z : N) : bytes :=
  match n with
  | O => []
  | S n' => default x00 (Byte.of_N (z mod 256)) :: counter_bytes n' (z / 256)
  end.

Definition draw (n : nat) (r : N) : bytes * N := (counter_bytes n r, (r + 1)%N).

End Symbolic.

(** Every [Date] inside the value is a valid one. *)
Fixpoint dates_valid (v : value) : bool :=
  match v with
  | VDate (Some t) => JSDate.valid_time t
  | VDate None => false
  | VArr l => forallb dates_valid l
  | VObj m | VError _ m => map_all dates_valid m
  | VUndefined | VNull | VBool _ | VNum _ | VStr _ | VBytes _ => true
  end.

(** An even number of hexadecimal digits, and nothing else. *)
Definition hex_pairs (s : string) : bool :=
  all_hex s && Nat.even (String.length s).

(** Every string tagged hex$ inside the value carries, after the tag, an
    even number of hexadecimal digits. *)
Fixpoint hex_tags_ok (v : value) : bool :=
  match v with
  | VStr s => if startsWith s "hex$" then hex_pairs (string_drop 4 s) else true
  | VArr l => forallb hex_tags_ok l
  | VObj m | VError _ m => map_all hex_tags_ok m
  | VUndefined | VNull | VBool _ | VNum _ | VBytes _ | VDate _ => true
  end.

Definition is_undefined (v : value) : bool :=
  match v with VUndefined => true | _ => false end.

(** What stands for [data] on the wire: [{}] when it is undefined, as the
    default parameter of [rawCall] and the void cases of the encrypted
    dispatchers have it. *)
Definition sent (data : value) : value :=
  match data with VUndefined => VObj ∅ | _ => data end.

(* ================================================================== *)
(** ** The HTTP exchange between the two dispatchers

    Express and fetch are not part of the repository.  What the client sees
    of a request is the first response the server's callback wrote, with
    the reason phrase Node gives its status; a callback that wrote none
    leaves the client without a JSON body to read. *)

Module Transport.
Section Transport.
Context `{Sodium}.
Import RPCServer.

Definition status_text (status : nat) : string :=
  if (status =? 200)%nat then "OK"
  else if (status =? 401)%nat then "Unauthorized"
  else if (status =? 500)%nat then "Internal Server Error"
  else "".

Definition no_response : response :=
  {| resp_status := 0; resp_statusText := ""; resp_body := None |}.

Definition first_response (tr : list event) : response :=
  match responses tr with
  | Responded status body :: _ =>
      {| resp_status := status; resp_statusText := status_text status;
         resp_body := body |}
  | _ => no_response
  end.

(** [fetch] against a server whose route runs [callback], the server's
    random generator being in state [g]. *)
Definition serve (callback : option json -> io unit) (g : rng)
    (req : request) : response :=
  first_response (run (callback (req_body req)) g).2.

End Transport.
End Transport.

(* ================================================================== *)
(** ** Server lifecycle (server.ts, listen)

    The function [listen] hands out closes the server inside a promise:
    [server.close((err) => { if (err === undefined) { resolve(); }
    reject(err); })].  A promise settles once; later calls of [resolve] and
    [reject] do nothing. *)

Module Shutdown.

Inductive promise :=
  | Pending
  | Resolved (v : value)
  | Rejected (e : value).

Definition resolve (v : value) (p : promise) : promise :=
  match p with Pending => Resolved v | _ => p end.

Definition reject (e : value) (p : promise) : promise :=
  match p with Pending => Rejected e | _ => p end.

(** The callback given to [server.close], run on the promise's state. *)
Definition on_close (err : value) (p : promise) : promise :=
  let p := if is_undefined err then resolve VUndefined p else p in
  reject err p.

(** The promise the shutdown function returns, once [close] has called
    back with [err]. *)
Definition closed (err : value) : promise := on_close err Pending.

End Shutdown.

(* ================================================================== *)
(** ** Sample data: the keys, users and handlers of the test suite *)

Module Samples.
Import RPCServer.

Definition skA : bytes := replicate 32 x01.
Definition pkA : bytes := Symbolic.scalarmult_base skA.
Definition skB : bytes := x02 :: replicate 31 x03.
Definition pkB : bytes := Symbolic.scalarmult_base skB.


(** One user, whose key pair is [(skA, pkA)]; the server's is [(skB, pkB)]. *)
Definition test_user : RPCUser := {| id := "test"; user_publicKey := pkA |}.
Definition the_user (_ : value) : result RPCUser := Ok test_user.
Definition nobody (_ : value) : result RPCUser := Throw (new_Error "not found").
Definition returns_true (_ : option RPCUser) (_ : value) : result value :=
  Ok (VBool true).
Definition lookup_request : option json :=
  Some (JObject {["id" := JString "nobody"; "payload" := JString "hex$00"]}).
Definition fails (msg : string) (_ : value) : result value :=
  Throw (new_Error msg).

End Samples.

(* ================================================================== *)
(** * Properties *)

(** ** The loops *)

Lemma for_of_Forall2 {A B} (f : A -> result B) l t :
  for_of f l = Ok t <-> Forall2 (fun x y => f x = Ok y) l t.
Proof.
  revert t; induction l as [|x l IH]; intros t; simpl.
  - split; [intros [= <-]; constructor | intros Hl; inversion Hl; done].
  - destruct (f x) as [y|e] eqn:Hx; simpl.
    + destruct (for_of f l) as [t'|e] eqn:Hl; simpl.
      * split.
        -- intros [= <-]. constructor; [done | by apply IH].
        -- intros Hl'; inversion Hl' as [|? y' ? t'' Hy Ht]; subst.
           apply IH in Ht. congruence.
      * split; [done|]. intros Hl'; inversion Hl' as [|? y' ? t'' Hy Ht]; subst.
        apply IH in Ht. congruence.
    + split; [done|]. intros Hl; inversion Hl; congruence.
Qed.

Lemma for_in_lookup {A B} (f : A -> result B) o t :
  for_in f o = Ok t ->
  forall k, option_Forall2 (fun x y => f x = Ok y) (o !! k) (t !! k).
Proof.
  unfold for_in. revert t.
  apply (map_fold_weak_ind (fun r m => forall t, r = Ok t ->
    forall k, option_Forall2 (fun x y => f x = Ok y) (m !! k) (t !! k))).
  - intros t [= <-] k. rewrite !lookup_empty. constructor.
  - intros i x m r Hi IH t Hr k.
    destruct r as [t0|e]; simpl in Hr; [|done].
    destruct (f x) as [y|e] eqn:Hx; simpl in Hr; [|done].
    injection Hr as <-.
    destruct (decide (k = i)) as [->|Hne].
    + rewrite !lookup_insert_eq. by constructor.
    + rewrite !lookup_insert_ne by done. by apply IH.
Qed.

Lemma for_in_intro {A B} (f : A -> result B) o t :
  (forall k, option_Forall2 (fun x y => f x = Ok y) (o !! k) (t !! k)) ->
  for_in f o = Ok t.
Proof.
  unfold for_in. revert t.
  apply (map_fold_weak_ind (fun r m => forall t,
    (forall k, option_Forall2 (fun x y => f x = Ok y) (m !! k) (t !! k)) ->
    r = Ok t)).
  - intros t Ht. f_equal. symmetry. apply map_empty. intros k.
    specialize (Ht k). rewrite lookup_empty in Ht. by inversion Ht.
  - intros i x m r Hi IH t Ht.
    rewrite (IH (delete i t)).
    + pose proof (Ht i) as Hti. rewrite lookup_insert_eq in Hti.
      inversion Hti as [? y Hy Hx Hty|]; subst. simpl. rewrite Hy. simpl.
      f_equal. rewrite insert_delete_eq. by apply insert_id.
    + intros k. destruct (decide (k = i)) as [->|Hne].
      * rewrite Hi, lookup_delete_eq. constructor.
      * rewrite lookup_delete_ne by done.
        specialize (Ht k). by rewrite lookup_insert_ne in Ht.
Qed.

Lemma for_in_total {A B} (f : A -> result B) o :
  (forall k x, o !! k = Some x -> exists y, f x = Ok y) ->
  exists t, for_in f o = Ok t.
Proof.
  unfold for_in.
  apply (map_fold_weak_ind (fun r m =>
    (forall k x, m !! k = Some x -> exists y, f x = Ok y) -> exists t, r = Ok t)).
  - by eexists.
  - intros i x m r Hi IH Hall.
    destruct IH as [t ->].
    + intros k z Hk. apply (Hall k). rewrite lookup_insert_ne; [done|congruence].
    + destruct (Hall i x) as [y Hy]; [by rewrite lookup_insert_eq|].
      simpl. rewrite Hy. by eexists.
Qed.

Lemma map_all_spec {A} (p : A -> bool) (m : gmap string A) :
  map_all p m = true <-> forall k x, m !! k = Some x -> p x = true.
Proof.
  unfold map_all.
  apply (map_fold_weak_ind (fun r m =>
    r = true <-> forall k x, m !! k = Some x -> p x = true)).
  - split; [|done]. intros _ k x. by rewrite lookup_empty.
  - intros i x m' r Hi IH. rewrite andb_true_iff, IH. split.
    + intros [Hx Hm] k z. destruct (decide (k = i)) as [->|Hne].
      * rewrite lookup_insert_eq. congruence.
      * rewrite lookup_insert_ne by done. apply Hm.
    + intros Hall. split.
      * apply (Hall i). by rewrite lookup_insert_eq.
      * intros k z Hk. apply (Hall k). rewrite lookup_insert_ne; [done|congruence].
Qed.

(** ** Induction on values *)

Lemma vsize_lookup (m : gmap string value) k x :
  m !! k = Some x -> vsize x <= map_fold (fun _ x acc => vsize x + acc) 0 m.
Proof.
  revert k x.
  apply (map_fold_weak_ind (fun r m => forall k x, m !! k = Some x -> vsize x <= r)).
  - intros k x. by rewrite lookup_empty.
  - intros i z m' r Hi IH k x. destruct (decide (k = i)) as [->|Hne].
    + rewrite lookup_insert_eq. intros [= ->]. lia.
    + rewrite lookup_insert_ne by done. intros Hk. specialize (IH _ _ Hk). lia.
Qed.

Lemma vsize_elem (l : list value) x :
  x ∈ l -> vsize x <= sum_list (vsize <$> l).
Proof.
  induction 1; rewrite fmap_cons; simpl; lia.
Qed.

Lemma value_ind' (P : value -> Prop) :
  P VUndefined -> P VNull -> (forall b, P (VBool b)) -> (forall x, P (VNum x)) ->
  (forall s, P (VStr s)) -> (forall u, P (VBytes u)) -> (forall t, P (VDate t)) ->
  (forall l, Forall P l -> P (VArr l)) ->
  (forall m, map_Forall (fun _ => P) m -> P (VObj m)) ->
  (forall msg m, map_Forall (fun _ => P) m -> P (VError msg m)) ->
  forall v, P v.
Proof.
  intros Hu Hn Hb Hx Hs Hy Hd Ha Ho He v.
  remember (vsize v) as n eqn:Hn'. revert v Hn'.
  induction n as [n IH] using lt_wf_ind. intros v ->.
  destruct v; auto.
  - apply Ha. apply Forall_forall. intros x Hin.
    apply (IH (vsize x)); [|done]. apply vsize_elem in Hin. simpl. lia.
  - apply Ho. intros k x Hk.
    apply (IH (vsize x)); [|done]. apply vsize_lookup in Hk. simpl. lia.
  - apply He. intros k x Hk.
    apply (IH (vsize x)); [|done]. apply vsize_lookup in Hk. simpl. lia.
Qed.

(** ** Dates: the ISO text of a valid time value parses back to it *)

Module JSDateFacts.
Import JSDate.
Local Open Scope Z_scope.

Lemma digit_value_char d : 0 <= d <= 9 -> digit_value (digit_char d) = Some d.
Proof.
  intros Hd.
  assert (d = 0 \/ d = 1 \/ d = 2 \/ d = 3 \/ d = 4 \/ d = 5 \/ d = 6 \/ d = 7
          \/ d = 8 \/ d = 9) as Hc by lia.
  repeat (destruct Hc as [->|Hc]; [reflexivity|]). by subst.
Qed.

Lemma app_String c s r : String c s +:+ r = String c (s +:+ r).
Proof. reflexivity. Qed.

Lemma read_digits_digits w n rest acc :
  0 <= n ->
  read_digits w (digits w n +:+ rest) acc
  = Some (acc * 10 ^ Z.of_nat w + n mod 10 ^ Z.of_nat w, rest).
Proof.
  intros Hn. revert acc. induction w as [|w IH]; intros acc.
  - simpl. rewrite Z.mod_1_r. do 2 f_equal. lia.
  - cbn [digits read_digits]. rewrite app_String.
    set (p := 10 ^ Z.of_nat w).
    assert (0 < p) as Hp by (apply Z.pow_pos_nonneg; lia).
    rewrite digit_value_char
      by (pose proof (Z.mod_pos_bound (n / p) 10); lia).
    cbn. rewrite IH. do 2 f_equal. fold p.
    replace (10 ^ Z.of_nat (S w)) with (p * 10)
      by (rewrite Nat2Z.inj_succ, Z.pow_succ_r by lia; subst p; lia).
    rewrite Z.rem_mul_r by lia. lia.
Qed.

Lemma read_digits_exact w n rest :
  0 <= n < 10 ^ Z.of_nat w ->
  read_digits w (digits w n +:+ rest) 0 = Some (n, rest).
Proof.
  intros Hn. rewrite read_digits_digits by lia.
  rewrite Z.mod_small by lia. do 2 f_equal.
Qed.

Lemma civil_from_days_spec z :
  let '(y, m, d) := civil_from_days z in
  1 <= m <= 12 /\ 1 <= d <= 31 /\ days_from_civil y m d = z
  /\ (z + 719468) / 146097 * 400 <= y <= (z + 719468) / 146097 * 400 + 400.
Proof.
  unfold civil_from_days, days_from_civil.
  set (z' := z + 719468). set (era := z' / 146097). set (doe := z' mod 146097).
  assert (0 <= doe < 146097) as Hdoe by (apply Z.mod_pos_bound; lia).
  assert (z' = 146097 * era + doe) as Hz by (apply Z.div_mod; lia).
  set (yoe := (doe - doe / 1460 + doe / 36524 - doe / 146096) / 365).
  set (doy := doe - (365 * yoe + yoe / 4 - yoe / 100)).
  assert (0 <= yoe < 400 /\ 0 <= doy <= 365) as [Hyoe Hdoy].
  { subst doy yoe. clearbody doe. clear -Hdoe. Z.div_mod_to_equations. lia. }
  set (mp := (5 * doy + 2) / 153).
  set (d := doy - (153 * mp + 2) / 5 + 1).
  assert (0 <= mp <= 11 /\ 1 <= d <= 31) as [Hmp Hd].
  { subst d mp. clearbody doy. clear -Hdoy. Z.div_mod_to_equations. lia. }
  set (m := if mp <? 10 then mp + 3 else mp - 9).
  assert (1 <= m <= 12 /\ (if 2 <? m then m - 3 else m + 9) = mp
          /\ ((if m <=? 2 then 1 else 0) = 0 \/ (if m <=? 2 then 1 else 0) = 1))
    as (Hm & Hmp' & Hc).
  { subst m. destruct (Z.ltb_spec mp 10);
      repeat match goal with
      | |- context [?a <? ?b] => destruct (Z.ltb_spec a b)
      | |- context [?a <=? ?b] => destruct (Z.leb_spec a b)
      end; lia. }
  set (c := if m <=? 2 then 1 else 0) in *.
  split; [done|]. split; [done|]. split; [|lia].
  replace (yoe + era * 400 + c - c) with (yoe + era * 400) by lia.
  rewrite Hmp'.
  replace ((yoe + era * 400) / 400) with era
    by (clear -Hyoe; Z.div_mod_to_equations; lia).
  replace ((yoe + era * 400) mod 400) with yoe
    by (clear -Hyoe; Z.div_mod_to_equations; lia).
  subst d doy. lia.
Qed.

Lemma time_within_day r :
  0 <= r < msPerDay ->
  0 <= r / 3600000 <= 23 /\ 0 <= r / 60000 mod 60 <= 59
  /\ 0 <= r / 1000 mod 60 <= 59 /\ 0 <= r mod 1000 <= 999
  /\ r / 3600000 * 3600000 + r / 60000 mod 60 * 60000
     + r / 1000 mod 60 * 1000 + r mod 1000 = r.
Proof.
  unfold msPerDay. intros Hr. Z.div_mod_to_equations. lia.
Qed.

Lemma expect_String c s : expect c (String c s) = Some s.
Proof. simpl. by rewrite Ascii.eqb_refl. Qed.

Lemma read_year_digit d s :
  0 <= d <= 9 ->
  read_year (String (digit_char d) s) = read_digits 4 (String (digit_char d) s) 0.
Proof.
  intros Hd.
  assert (d = 0 \/ d = 1 \/ d = 2 \/ d = 3 \/ d = 4 \/ d = 5 \/ d = 6 \/ d = 7
          \/ d = 8 \/ d = 9) as Hc by lia.
  repeat (destruct Hc as [->|Hc]; [reflexivity|]). by subst.
Qed.

Lemma read_year_string y rest :
  -1000000 < y < 1000000 ->
  read_year (year_string y +:+ rest) = Some (y, rest).
Proof.
  intros Hy. unfold year_string.
  destruct (Z.leb_spec 0 y) as [H0|H0]; simpl andb; cbv iota.
  - destruct (Z.leb_spec y 9999) as [H9|H9]; cbv iota.
    + assert (digits 4 y +:+ rest
              = String (digit_char ((y / 10 ^ 3) mod 10)) (digits 3 y +:+ rest))
        as Hd by reflexivity.
      rewrite Hd, read_year_digit
        by (pose proof (Z.mod_pos_bound (y / 10 ^ 3) 10); lia).
      rewrite <- Hd. apply read_digits_exact. simpl. lia.
    + rewrite app_String. cbn [read_year].
      apply read_digits_exact. simpl. lia.
  - rewrite app_String. cbn [read_year].
    rewrite read_digits_exact by (simpl; lia). cbn.
    destruct (Z.eqb_spec (- y) 0); [lia|]. do 2 f_equal. lia.
Qed.

Lemma parse_iso_string t :
  valid_time t = true -> parse (iso_string t) = Some t.
Proof.
  unfold valid_time, maxTime. intros Ht.
  apply andb_true_iff in Ht as [Hlo Hhi].
  apply Z.leb_le in Hlo, Hhi.
  unfold iso_string, parse.
  pose proof (civil_from_days_spec (t / msPerDay)) as Hc.
  destruct (civil_from_days (t / msPerDay)) as [[y m] d].
  destruct Hc as (Hm & Hd & Hdays & Hy).
  assert (0 <= t mod msPerDay < msPerDay) as Hr
    by (apply Z.mod_pos_bound; unfold msPerDay; lia).
  destruct (time_within_day _ Hr) as (Hh & Hmi & Hs & Hms & Hsum).
  assert (-1000000 < y < 1000000) as Hyb.
  { clear -Hlo Hhi Hy. unfold msPerDay in Hy. Z.div_mod_to_equations. lia. }
  set (r := t mod msPerDay) in *.
  rewrite read_year_string by done. cbn [mbind option_bind].
  repeat (first [rewrite expect_String
                | rewrite read_digits_exact by (simpl; lia)
                | rewrite app_String ];
          cbn [mbind option_bind]).
  cbn [String.eqb negb].
  replace ((1 <=? m) && (m <=? 12) && (1 <=? d) && (d <=? 31)) with true
    by (symmetry; rewrite !andb_true_iff, !Z.leb_le; lia).
  replace ((r / 60000 mod 60 <=? 59) && (r / 1000 mod 60 <=? 59)) with true
    by (symmetry; rewrite !andb_true_iff, !Z.leb_le; lia).
  replace (r / 3600000 <=? 23) with true by (symmetry; rewrite Z.leb_le; lia).
  cbn [negb orb].
  rewrite Hdays.
  assert (t / msPerDay * msPerDay + r / 3600000 * 3600000
          + r / 60000 mod 60 * 60000 + r / 1000 mod 60 * 1000 + r mod 1000 = t)
    as ->.
  { rewrite <- !Z.add_assoc, (Z.add_assoc (r / 3600000 * 3600000)),
      (Z.add_assoc (r / 3600000 * 3600000 + _)), Hsum.
    subst r. pose proof (Z.div_mod t msPerDay). unfold msPerDay in *. lia. }
  unfold valid_time, maxTime.
  by rewrite (proj2 (Z.leb_le _ _) Hlo), (proj2 (Z.leb_le _ _) Hhi).
Qed.

End JSDateFacts.

Example iso_epoch : JSDate.iso_string 0 = "1970-01-01T00:00:00.000Z".
Proof. reflexivity. Qed.
Example iso_sample : JSDate.iso_string 1604332800123 = "2020-11-02T16:00:00.123Z".
Proof. reflexivity. Qed.
Example iso_neg : JSDate.iso_string (-62167219200001) = "-000001-12-31T23:59:59.999Z".
Proof. reflexivity. Qed.
Example iso_max : JSDate.iso_string 8640000000000000 = "+275760-09-13T00:00:00.000Z".
Proof. reflexivity. Qed.
Example parse_sample :
  JSDate.parse "2020-11-02T16:00:00.123Z" = Some 1604332800123%Z
  /\ JSDate.parse "-000001-12-31T23:59:59.999Z" = Some (-62167219200001)%Z
  /\ JSDate.parse "+275760-09-13T00:00:00.000Z" = Some 8640000000000000%Z
  /\ JSDate.parse "x" = None.
Proof. repeat split; reflexivity. Qed.

(** ** Hexadecimal and tag lemmas *)

Lemma hex_digits_of_byte b :
  let n := Byte.to_N b in
  hex_value (hex_digit (n / 16)) = Some (n / 16)%N
  /\ hex_value (hex_digit (n mod 16)) = Some (n mod 16)%N
  /\ Byte.of_N (16 * (n / 16) + n mod 16) = Some b.
Proof. destruct b; vm_compute; auto. Qed.

Lemma hex2bin_to_hex u : hex2bin (to_hex u) = Some u.
Proof.
  induction u as [|b u IH]; [done|].
  destruct (hex_digits_of_byte b) as (Hh & Hl & Hb).
  cbn [to_hex hex2bin]. rewrite Hh. cbn [mbind option_bind].
  rewrite Hl. cbn [mbind option_bind]. rewrite Hb. cbn [mbind option_bind].
  by rewrite IH.
Qed.

Lemma from_hex_to_hex u : from_hex (to_hex u) = Ok u.
Proof. unfold from_hex. by rewrite hex2bin_to_hex. Qed.

Lemma replace_hex_tag s : replace "hex$" "" ("hex$" +:+ s) = s.
Proof. destruct s; reflexivity. Qed.

Lemma replace_date_tag s : replace "date$" "" ("date$" +:+ s) = s.
Proof. destruct s; reflexivity. Qed.

Lemma autodecode_hex_tag s :
  autodecode (VStr ("hex$" +:+ s)) = (u ← from_hex s; Ok (VBytes u)).
Proof. destruct s; reflexivity. Qed.

Lemma autodecode_date_tag s :
  autodecode (VStr ("date$" +:+ s)) = Ok (new_Date s).
Proof. destruct s; reflexivity. Qed.

Lemma autodecode_untagged s :
  untagged s = true -> autodecode (VStr s) = Ok (VStr s).
Proof.
  unfold untagged. intros [Hh Hd]%andb_true_iff.
  apply negb_true_iff in Hh, Hd. cbn [autodecode]. by rewrite Hh, Hd.
Qed.

(** ** Round trip of the loops *)

Lemma for_of_roundtrip {A B} (f : A -> result B) (g : B -> result A) l :
  Forall (fun x => f x ≫= g = Ok x) l ->
  for_of f l ≫= for_of g = Ok l.
Proof.
  induction 1 as [|x l Hx _ IH]; [done|].
  cbn [for_of]. destruct (f x) as [y|e]; [|done]. simpl in Hx.
  destruct (for_of f l) as [t|e]; [|done]. simpl in IH.
  simpl. by rewrite Hx, IH.
Qed.

Lemma for_in_roundtrip {A B} (f : A -> result B) (g : B -> result A) o :
  (forall k x, o !! k = Some x -> f x ≫= g = Ok x) ->
  for_in f o ≫= for_in g = Ok o.
Proof.
  intros Hall.
  destruct (for_in_total f o) as [t Ht].
  { intros k x Hk. specialize (Hall k x Hk).
    destruct (f x) as [y|e]; [by eexists|done]. }
  rewrite Ht. simpl. apply for_in_intro. intros k.
  pose proof (for_in_lookup f o t Ht k) as Hk.
  inversion Hk as [x y Hxy Hox Htk|]; constructor.
  specialize (Hall k x (eq_sym Hox)). by rewrite Hxy in Hall.
Qed.

(* ================================================================== *)
(** ** Wire codec *)

Lemma supported_VArr l :
  supported (VArr l) = true <-> Forall (fun x => supported x = true) l.
Proof. cbn [supported]. by rewrite forallb_forall, Forall_forall; setoid_rewrite <- list_elem_of_In. Qed.

Lemma supported_VObj m :
  supported (VObj m) = true <-> forall k x, m !! k = Some x -> supported x = true.
Proof. cbn [supported]. apply map_all_spec. Qed.

(** Decoding what [autoencode] returned for a supported value gives the
    value back. *)
Lemma codec_roundtrip (v : value) :
  supported v = true -> autoencode v ≫= autodecode = Ok v.
Proof.
  induction v as [| |b|x|s|u|t|l IH|m IH|msg m IH] using value_ind';
    intros Hs; try done.
  - cbn [autoencode mbind result_bind]. by apply autodecode_untagged.
  - cbn [autoencode mbind result_bind].
    by rewrite autodecode_hex_tag, from_hex_to_hex.
  - destruct t as [t|]; [|done]. cbn [supported] in Hs.
    cbn [autoencode toISOString]. rewrite Hs. cbn [mbind result_bind].
    rewrite autodecode_date_tag. unfold new_Date.
    by rewrite JSDateFacts.parse_iso_string.
  - apply supported_VArr in Hs.
    assert (for_of autoencode l ≫= for_of autodecode = Ok l) as Hl.
    { apply for_of_roundtrip. rewrite Forall_forall in IH, Hs |- *.
      intros x Hx. by apply IH, Hs. }
    cbn [autoencode]. destruct (for_of autoencode l) as [t|e]; [|done].
    simpl in Hl |- *. by rewrite Hl.
  - assert (for_in autoencode m ≫= for_in autodecode = Ok m) as Hm.
    { apply for_in_roundtrip. intros k x Hk.
      apply (IH k x Hk). by eapply supported_VObj. }
    cbn [autoencode]. destruct (for_in autoencode m) as [t|e]; [|done].
    simpl in Hm |- *. by rewrite Hm.
Qed.



Lemma for_of_fixed {A} (f : A -> result A) l :
  Forall (fun x => f x = Ok x) l -> for_of f l = Ok l.
Proof.
  intros Hl. apply for_of_Forall2. induction Hl; constructor; auto.
Qed.

Lemma for_in_fixed {A} (f : A -> result A) (o : gmap string A) :
  (forall k x, o !! k = Some x -> f x = Ok x) -> for_in f o = Ok o.
Proof.
  intros Ho. apply for_in_intro. intros k.
  destruct (o !! k) as [x|] eqn:Hk; constructor. by eapply Ho.
Qed.

Lemma for_of_total {A B} (f : A -> result B) (Q : B -> Prop) l :
  Forall (fun x => exists y, f x = Ok y /\ Q y) l ->
  exists t, for_of f l = Ok t /\ Forall Q t.
Proof.
  induction 1 as [|x l (y & Hy & HQ) _ (t & Ht & HQt)].
  - exists []. by split.
  - exists (y :: t). cbn [for_of]. rewrite Hy, Ht. split; [done|by constructor].
Qed.

Lemma for_in_total_with {A B} (f : A -> result B) (Q : B -> Prop) o :
  (forall k x, o !! k = Some x -> exists y, f x = Ok y /\ Q y) ->
  exists t, for_in f o = Ok t /\ forall k y, t !! k = Some y -> Q y.
Proof.
  intros Ho. destruct (for_in_total f o) as [t Ht].
  { intros k x Hk. destruct (Ho k x Hk) as (y & Hy & _). by exists y. }
  exists t. split; [done|]. intros k y Hk.
  pose proof (for_in_lookup f o t Ht k) as Hrel. rewrite Hk in Hrel.
  inversion Hrel as [x y' Hxy Hox Heq|]; subst.
  destruct (Ho k x (eq_sym Hox)) as (y'' & Hy'' & HQ). congruence.
Qed.

Lemma wire_VArr l : wire (VArr l) = true <-> Forall (fun x => wire x = true) l.
Proof.
  cbn [wire]. rewrite forallb_forall, Forall_forall.
  by setoid_rewrite <- list_elem_of_In.
Qed.

(** The encoding of a supported value is a wire value. *)
Lemma autoencode_wire v :
  supported v = true -> exists w, autoencode v = Ok w /\ wire w = true.
Proof.
  induction v as [| |b|x|s|u|t|l IH|m IH|msg m IH] using value_ind';
    intros Hs; try done; try (by eexists).
  - destruct t as [t|]; [|done]. cbn [supported] in Hs.
    cbn [autoencode toISOString]. rewrite Hs. by eexists.
  - apply supported_VArr in Hs.
    destruct (for_of_total autoencode (fun w => wire w = true) l) as (t & Ht & Hw).
    { rewrite Forall_forall in IH, Hs |- *. intros x Hx. by apply IH, Hs. }
    exists (VArr t). cbn [autoencode]. rewrite Ht. split; [done|].
    by apply wire_VArr.
  - destruct (for_in_total_with autoencode (fun w => wire w = true) m)
      as (t & Ht & Hw).
    { intros k x Hk. apply (IH k x Hk). by eapply supported_VObj. }
    exists (VObj t). cbn [autoencode]. rewrite Ht. split; [done|].
    by apply map_all_spec.
Qed.

(** Re-encoding a wire value leaves it unchanged. *)
Lemma autoencode_wire_fixed w : wire w = true -> autoencode w = Ok w.
Proof.
  induction w as [| |b|x|s|u|t|l IH|m IH|msg m IH] using value_ind';
    intros Hw; try done.
  - apply wire_VArr in Hw. cbn [autoencode]. rewrite for_of_fixed; [done|].
    rewrite Forall_forall in IH, Hw |- *. intros x Hx. by apply IH, Hw.
  - cbn [wire] in Hw. cbn [autoencode]. rewrite for_in_fixed; [done|].
    intros k x Hk. apply (IH k x Hk). by eapply map_all_spec.
Qed.



(** ** Malformed tagged strings *)



Lemma for_in_throws {A B} (f : A -> result B) o k x :
  o !! k = Some x -> is_ok (f x) = false -> is_ok (for_in f o) = false.
Proof.
  intros Hk Hf. destruct (for_in f o) as [t|e] eqn:Ho; [|done].
  pose proof (for_in_lookup f o t Ho k) as Hrel. rewrite Hk in Hrel.
  inversion Hrel as [? y Hy|]; subst. by rewrite Hy in Hf.
Qed.




(* ================================================================== *)
(** ** JSON transport of wire values *)

Lemma forallb_Forall {A} (p : A -> bool) l :
  forallb p l = true <-> Forall (fun x => p x = true) l.
Proof.
  rewrite forallb_forall, Forall_forall. by setoid_rewrite <- list_elem_of_In.
Qed.

Lemma autoencode_json_numbers v w :
  autoencode v = Ok w -> json_numbers v = true -> json_numbers w = true.
Proof.
  revert w.
  induction v as [| |b|x|s|u|t|l IH|m IH|msg m IH] using value_ind';
    intros w Hw Hn; cbn [autoencode] in Hw; try (by injection Hw as <-).
  - destruct (toISOString t); [|done]. by injection Hw as <-.
  - destruct (for_of autoencode l) as [t|] eqn:Hl; [|done]. injection Hw as <-.
    apply for_of_Forall2 in Hl. cbn [json_numbers] in Hn |- *.
    apply forallb_Forall in Hn. apply forallb_Forall.
    induction Hl as [|x y l t Hxy _ IHl]; [done|].
    inversion IH; inversion Hn; subst. constructor; eauto.
  - destruct (for_in autoencode m) as [t|] eqn:Hm; [|done]. injection Hw as <-.
    cbn [json_numbers] in Hn |- *. rewrite map_all_spec in Hn |- *.
    intros k y Hk. pose proof (for_in_lookup _ _ _ Hm k) as Hrel.
    rewrite Hk in Hrel. inversion Hrel as [x ? Hxy Hox|]; subst.
    eapply (IH k x); eauto.
  - destruct (for_in autoencode m) as [t|] eqn:Hm; [|done]. injection Hw as <-.
    cbn [json_numbers] in Hn |- *. rewrite map_all_spec in Hn |- *.
    intros k y Hk. pose proof (for_in_lookup _ _ _ Hm k) as Hrel.
    rewrite Hk in Hrel. inversion Hrel as [x ? Hxy Hox|]; subst.
    eapply (IH k x); eauto.
Qed.

(** What [JSON.parse] reads back from the text [JSON.stringify] wrote for a
    wire value whose numbers JSON writes exactly is that value. *)
Lemma JSON_roundtrip w :
  wire w = true -> json_numbers w = true ->
  JSON_parse <$> JSON_stringify w = Some w.
Proof.
  induction w as [| |b|x|s|u|t|l IH|m IH|msg m IH] using value_ind';
    intros Hw Hn; try done.
  - by destruct x as [[]| | |].
  - apply wire_VArr in Hw. cbn [json_numbers] in Hn. apply forallb_Forall in Hn.
    cbn [JSON_stringify fmap option_fmap option_map JSON_parse].
    do 2 f_equal. rewrite <- list_fmap_compose.
    rewrite <- (list_fmap_id l) at 2. apply Forall_fmap_ext.
    rewrite Forall_forall in IH, Hw, Hn |- *. intros x Hx. simpl.
    specialize (IH x Hx (Hw x Hx) (Hn x Hx)).
    destruct (JSON_stringify x); [|done]. by injection IH.
  - cbn [wire json_numbers] in Hw, Hn. rewrite map_all_spec in Hw, Hn.
    cbn [JSON_stringify fmap option_fmap option_map JSON_parse].
    do 2 f_equal. apply map_eq. intros k.
    rewrite lookup_fmap, lookup_omap.
    destruct (m !! k) as [x|] eqn:Hk; [|done]. simpl.
    exact (IH k x Hk (Hw k x Hk) (Hn k x Hk)).
Qed.

(* ================================================================== *)
(** ** Envelope crypto *)

Section Envelope.
Context `{Sodium}.

Lemma keypair_length sk pk : box_keypair sk pk -> length pk = crypto_box_KEYBYTES.
Proof. intros [Hsk ->]. by apply crypto_scalarmult_base_length. Qed.

(** [decrypt] splits an envelope at the nonce length. *)
Lemma decrypt_envelope n c pk sk :
  length n = crypto_box_NONCEBYTES ->
  decrypt (n ++ c) pk sk
  = (m ← crypto_box_open_easy c n pk sk; autodecode (JSON_parse m)).
Proof.
  intros Hn. unfold decrypt.
  by rewrite <- Hn, take_app_length, drop_app_length.
Qed.

(** What [encrypt] returns when the encoding succeeds and there is a text to
    seal: the nonce it drew, followed by the box. *)
Lemma encrypt_envelope v w j pk sk r :
  autoencode v = Ok w -> JSON_stringify w = Some j ->
  length pk = crypto_box_KEYBYTES -> length sk = crypto_box_KEYBYTES ->
  exists c,
    box_seal j (randombytes_buf crypto_box_NONCEBYTES r).1 pk sk = Some c
    /\ encrypt v pk sk r
       = (Ok ((randombytes_buf crypto_box_NONCEBYTES r).1 ++ c),
          (randombytes_buf crypto_box_NONCEBYTES r).2).
Proof.
  intros Hw Hj Hpk Hsk. unfold encrypt. rewrite Hw, Hj.
  pose proof (randombytes_buf_length crypto_box_NONCEBYTES r) as Hn.
  destruct (randombytes_buf crypto_box_NONCEBYTES r) as [n r']. simpl in *.
  destruct (box_seal_defined j n pk sk Hn Hpk Hsk) as [c Hc].
  exists c. unfold crypto_box_easy. by rewrite Hc.
Qed.

(** Opening an envelope with the matching keys decodes the text that was
    sealed. *)
Lemma decrypt_encrypt_text v w j skA pkA skB pkB r :
  autoencode v = Ok w -> JSON_stringify w = Some j ->
  box_keypair skA pkA -> box_keypair skB pkB ->
  exists e, (encrypt v pkB skA r).1 = Ok e
            /\ decrypt e pkA skB = autodecode (JSON_parse j).
Proof.
  intros Hw Hj HA HB.
  destruct (encrypt_envelope v w j pkB skA r Hw Hj) as (c & Hc & He);
    [by eapply keypair_length | by destruct HA |].
  eexists. rewrite He. split; [done|].
  rewrite decrypt_envelope by apply randombytes_buf_length.
  unfold crypto_box_open_easy.
  destruct HA as [HAl ->], HB as [HBl ->].
  rewrite (proj2 (box_open_spec c _ _ skB j HBl)); [done|].
  by exists skA.
Qed.

Lemma decrypt_encrypt_value v skA pkA skB pkB r :
  supported v = true -> json_numbers v = true ->
  box_keypair skA pkA -> box_keypair skB pkB ->
  exists e, (encrypt v pkB skA r).1 = Ok e /\ decrypt e pkA skB = Ok v.
Proof.
  intros Hs Hn HA HB.
  destruct (autoencode_wire v Hs) as (w & Hw & Hwire).
  pose proof (autoencode_json_numbers v w Hw Hn) as Hwn.
  pose proof (JSON_roundtrip w Hwire Hwn) as Hj.
  destruct (JSON_stringify w) as [j|] eqn:Hjw; [|done].
  injection Hj as Hj.
  destruct (decrypt_encrypt_text v w j skA pkA skB pkB r Hw Hjw HA HB)
    as (e & He & Hd).
  exists e. split; [done|]. rewrite Hd, Hj.
  pose proof (codec_roundtrip v Hs) as Hrt. by rewrite Hw in Hrt.
Qed.

End Envelope.

(* ================================================================== *)
(** ** The symbolic box meets the interface *)

Module SymbolicFacts.
Import Symbolic.

Lemma jsize_lookup (m : gmap string json) k x :
  m !! k = Some x -> jsize x <= map_fold (fun _ x acc => jsize x + acc) 0 m.
Proof.
  revert k x.
  apply (map_fold_weak_ind (fun r m => forall k x, m !! k = Some x -> jsize x <= r)).
  - intros k x. by rewrite lookup_empty.
  - intros i z m' r Hi IH k x. destruct (decide (k = i)) as [->|Hne].
    + rewrite lookup_insert_eq. intros [= ->]. lia.
    + rewrite lookup_insert_ne by done. intros Hk. specialize (IH _ _ Hk). lia.
Qed.

Lemma jsize_elem (l : list json) x : x ∈ l -> jsize x <= sum_list (jsize <$> l).
Proof. induction 1; rewrite fmap_cons; simpl; lia. Qed.

Lemma json_ind' (P : json -> Prop) :
  P JNull -> (forall b, P (JBool b)) -> (forall x, P (JNum x)) ->
  (forall s, P (JString s)) ->
  (forall l, Forall P l -> P (JArray l)) ->
  (forall m, map_Forall (fun _ => P) m -> P (JObject m)) ->
  forall j, P j.
Proof.
  intros Hn Hb Hx Hs Ha Ho j.
  remember (jsize j) as n eqn:Hn'. revert j Hn'.
  induction n as [n IH] using lt_wf_ind. intros j ->.
  destruct j; auto.
  - apply Ha. apply Forall_forall. intros x Hin.
    apply (IH (jsize x)); [|done]. apply jsize_elem in Hin. simpl. lia.
  - apply Ho. intros k x Hk.
    apply (IH (jsize x)); [|done]. apply jsize_lookup in Hk. simpl. lia.
Qed.

Lemma code_number_code x : code_number (number_code x) = x.
Proof. by destruct x. Qed.

Lemma tree_json_tree j : tree_json (json_tree j) = j.
Proof.
  induction j as [|b|x|s|l IH|m IH] using json_ind'; try done.
  - cbn [json_tree tree_json]. by rewrite code_number_code.
  - cbn [json_tree tree_json]. f_equal. rewrite <- list_fmap_compose.
    rewrite <- (list_fmap_id l) at 2. by apply Forall_fmap_ext.
  - cbn [json_tree tree_json]. f_equal.
    rewrite map_fold_foldr.
    rewrite <- (list_to_map_to_list m) at 2. f_equal.
    assert (Forall (fun kx => tree_json (json_tree kx.2) = kx.2) (map_to_list m))
      as Hall.
    { apply Forall_forall. intros [k x] Hkx. apply elem_of_map_to_list in Hkx.
      by apply (IH k x). }
    induction Hall as [|[k x] l Hx _ IHl]; [done|].
    cbn [foldr uncurry]. rewrite fmap_cons. simpl in Hx. by rewrite Hx, IHl.
Qed.

Lemma bytes_pos_bytes p : bytes_pos (pos_bytes p) = p.
Proof. induction p as [p IH|p IH|]; simpl; by rewrite ?IH. Qed.

#[local] Instance byte_to_N_inj : Inj (=) (=) Byte.to_N.
Proof.
  intros b1 b2 Hb. apply (f_equal Byte.of_N) in Hb.
  rewrite !Byte.of_to_N in Hb. by injection Hb.
Qed.

Lemma box_bytes_inj m n pkR pkS m' n' pkR' pkS' :
  box_bytes m n pkR pkS = box_bytes m' n' pkR' pkS' ->
  m = m' /\ n = n' /\ pkR = pkR' /\ pkS = pkS'.
Proof.
  unfold box_bytes. intros Hb.
  apply (f_equal bytes_pos) in Hb. rewrite !bytes_pos_bytes in Hb.
  apply (inj encode) in Hb. injection Hb as Hm Hn HR HS.
  apply (f_equal tree_json) in Hm. rewrite !tree_json_tree in Hm.
  by apply (inj (fmap Byte.to_N)) in Hn, HR, HS.
Qed.

Lemma counter_bytes_length n z : length (counter_bytes n z) = n.
Proof. revert z; induction n as [|n IH]; intros z; simpl; by rewrite ?IH. Qed.

Lemma seal_Some m n pk sk c :
  seal m n pk sk = Some c <->
  length n = crypto_box_NONCEBYTES /\ length pk = crypto_box_KEYBYTES
  /\ length sk = crypto_box_KEYBYTES /\ c = box_bytes m n pk (scalarmult_base sk).
Proof.
  unfold seal. destruct (decide _) as [(?&?&?)|Hn].
  - split; [intros [= <-]; done | intros (_&_&_&->); done].
  - split; [done | intros (?&?&?&_); by destruct Hn].
Qed.

Lemma open_Some c n pkS skR m :
  length skR = crypto_box_KEYBYTES ->
  open c n pkS skR = Some m <->
  exists skS, length skS = crypto_box_KEYBYTES /\ pkS = scalarmult_base skS
              /\ seal m n (scalarmult_base skR) skS = Some c.
Proof.
  intros HR. unfold open. split.
  - destruct (decode (bytes_pos c)) as [[[[t ?] ?] ?]|]; [|done].
    destruct (decide _) as [Hs|]; [|done]. intros [= <-].
    exists (reverse pkS). unfold scalarmult_base at 1.
    rewrite reverse_involutive. split; [|done].
    apply seal_Some in Hs. tauto.
  - intros (skS & HS & -> & Hs).
    pose proof Hs as Hs'. apply seal_Some in Hs' as (_ & _ & _ & ->).
    unfold box_bytes at 1. rewrite bytes_pos_bytes, decode_encode.
    rewrite tree_json_tree. rewrite decide_True; [done|].
    unfold scalarmult_base at 2. by rewrite reverse_involutive.
Qed.

Lemma seal_defined m n pk sk :
  length n = crypto_box_NONCEBYTES -> length pk = crypto_box_KEYBYTES ->
  length sk = crypto_box_KEYBYTES -> is_Some (seal m n pk sk).
Proof. intros Hn Hpk Hsk. unfold seal. rewrite decide_True by done. by eexists. Qed.

Lemma seal_inj m n pk sk m' n' pk' sk' c :
  seal m n pk sk = Some c -> seal m' n' pk' sk' = Some c ->
  m = m' /\ n = n'
  /\ ((pk = pk' /\ scalarmult_base sk = scalarmult_base sk')
      \/ (pk = scalarmult_base sk' /\ pk' = scalarmult_base sk)).
Proof.
  intros Hc Hc'.
  apply seal_Some in Hc as (_&_&_&->), Hc' as (_&_&_&Heq).
  apply box_bytes_inj in Heq as (-> & -> & -> & ->). auto.
Qed.

Lemma scalarmult_base_length sk :
  length sk = crypto_box_KEYBYTES -> length (scalarmult_base sk) = crypto_box_KEYBYTES.
Proof. intros Hsk. unfold scalarmult_base. by rewrite length_reverse. Qed.

Definition sodium : Sodium := {|
  rng := N;
  randombytes_buf := draw;
  randombytes_buf_length := fun n r => counter_bytes_length n r;
  crypto_scalarmult_base := scalarmult_base;
  crypto_scalarmult_base_length := scalarmult_base_length;
  box_seal := seal;
  box_open := open;
  box_seal_defined := seal_defined;
  box_open_spec := open_Some;
  box_seal_inj := seal_inj;
|}.

End SymbolicFacts.

(* ================================================================== *)
(** ** Envelope crypto: sealing and opening *)

Section EnvelopeProperties.
Context `{Sodium}.





End EnvelopeProperties.

(** ** The envelope functions run on the symbolic box *)

Module EnvelopeRuns.
Import Symbolic SymbolicFacts Samples.







End EnvelopeRuns.

(* ================================================================== *)
(** ** Client: session state and encrypted calls *)

Section ClientProperties.
Context `{Sodium}.
Import RPCClient.

Lemma isloggedIn_true c :
  isloggedIn c = true <->
  is_Some (userID c) /\ is_Some (privateKey c) /\ is_Some (publicKey c)
  /\ is_Some (serverKey c).
Proof.
  unfold isloggedIn. rewrite !andb_true_iff, !bool_decide_eq_true.
  rewrite <- !not_eq_None_Some. tauto.
Qed.

Lemma isloggedIn_false c :
  isloggedIn c = false <->
  userID c = None \/ privateKey c = None \/ publicKey c = None
  \/ serverKey c = None.
Proof.
  rewrite <- not_true_iff_false, isloggedIn_true, <- !not_eq_None_Some.
  destruct (userID c), (privateKey c), (publicKey c), (serverKey c);
    split; intros Hc; try tauto; try (right; tauto);
    try (destruct Hc as [?|[?|[?|?]]]; discriminate);
    try (exfalso; apply Hc; repeat split; discriminate).
Qed.

(** Not logged in: the call is rejected on the spot; nothing is sent and no
    random bytes are drawn. *)
Lemma encryptedCall_rejected baseURL fetch c name args r :
  isloggedIn c = false ->
  encryptedCall baseURL fetch c name args r = (Throw NotAuthenticated, [], r).
Proof. intros Hc. unfold encryptedCall. by rewrite Hc. Qed.

(** C5. A function returned by [encryptedCall], invoked while any of the
    user identifier, private key, public key or server key is absent,
    rejects with NotAuthenticated at once and issues no network request,
    whatever its input. *)
Theorem encryptedCall_not_authenticated
    (baseURL : string) (fetch : request -> response)
    (c : t) (name : string) (args : value) (r : rng) :
  userID c = None \/ privateKey c = None \/ publicKey c = None
    \/ serverKey c = None ->
  encryptedCall baseURL fetch c name args r = (Throw NotAuthenticated, [], r).
Proof. intros Hc. by apply encryptedCall_rejected, isloggedIn_false. Qed.

(** C9. [isloggedIn] is true exactly when the four fields are present, and
    false in every other state; [logout] clears the four fields, after which
    [isloggedIn] is false and an encrypted call on the same client is
    rejected without a request. *)
Theorem isloggedIn_logout
    (baseURL : string) (fetch : request -> response)
    (c : t) (name : string) (args : value) (r : rng) :
  (isloggedIn c = true <->
     is_Some (userID c) /\ is_Some (privateKey c) /\ is_Some (publicKey c)
     /\ is_Some (serverKey c))
  /\ (isloggedIn c = false <->
        userID c = None \/ privateKey c = None \/ publicKey c = None
        \/ serverKey c = None)
  /\ logout c = init
  /\ isloggedIn (logout c) = false
  /\ encryptedCall baseURL fetch (logout c) name args r
     = (Throw NotAuthenticated, [], r).
Proof.
  split; [apply isloggedIn_true|]. split; [apply isloggedIn_false|].
  split; [done|]. split; [done|]. by apply encryptedCall_rejected.
Qed.

End ClientProperties.

Lemma encryptedCall_not_authenticated_witness :
  let c := {| RPCClient.userID := Some "test"; RPCClient.privateKey := None;
              RPCClient.publicKey := Some [x01]; RPCClient.serverKey := Some [x02] |} in
  let fetch := fun _ => {| resp_status := 200; resp_statusText := "OK";
                           resp_body := Some (JBool true) |} in
  RPCClient.privateKey c = None
  /\ @RPCClient.encryptedCall SymbolicFacts.sodium "/rpc" fetch c "TestEncrypted"
       VUndefined 0%N
     = (Throw RPCClient.NotAuthenticated, [], 0%N).
Proof.
  split; [reflexivity|].
  apply (@encryptedCall_not_authenticated SymbolicFacts.sodium).
  right; left; reflexivity.
Defined.

(* ================================================================== *)
(** ** Server dispatch *)

Section ServerProperties.
Context `{Sodium}.
Import RPCServer.

Variable serverPrivateKey : bytes.
Variable getUser : value -> result RPCUser.

Ltac run_io :=
  unfold run, handle, encryptedHandle, resolve, try_catch, io_encrypt, invoke,
    res_json, lift, io_ret, mbind, io_mbind, io_bind in *;
  cbn [trace gen existsb is_response orb app].

(** An [Error] has no enumerable property of its own: it encodes as [{}]. *)
Lemma autoencode_new_Error msg : autoencode (new_Error msg) = Ok (VObj ∅).
Proof.
  unfold new_Error. cbn [autoencode]. unfold for_in. by rewrite map_fold_empty.
Qed.

Lemma autoencode_no_such_user :
  autoencode (VObj {["message" := VStr "No such user found."]})
  = Ok (VObj {["message" := VStr "No such user found."]}).
Proof. by apply autoencode_wire_fixed. Qed.

Lemma stringify_no_such_user :
  JSON_stringify (VObj {["message" := VStr "No such user found."]})
  = no_such_user_body.
Proof.
  cbn [JSON_stringify]. unfold no_such_user_body.
  by rewrite (omap_singleton_Some _ _ _ (JString "No such user found.")).
Qed.

(** What the code does when the user lookup fails: the 401 is written, the
    handler is then invoked on an undefined identity and an undefined input,
    and the request ends in an error that no response reports. *)
Lemma encryptedHandle_lookup_fails fn body decodedBody e g :
  (j ← JSON_parse_text body; autodecode j) = Ok decodedBody ->
  (i ← get_prop decodedBody "id"; getUser i) = Throw e ->
  exists e',
    run (encryptedHandle serverPrivateKey getUser fn body) g
    = (Throw e', [Responded 401 no_such_user_body;
                  HandlerInvoked None VUndefined]).
Proof.
  intros Hbody Hlookup. run_io. rewrite Hbody, Hlookup.
  rewrite autoencode_no_such_user, stringify_no_such_user.
  cbn [trace gen existsb is_response orb app].
  destruct (fn None VUndefined) as [output|err].
  - cbn [identity_publicKey]. unfold TypeError. rewrite autoencode_new_Error.
    cbn [trace gen existsb is_response orb app]. by eexists.
  - destruct (autoencode err); cbn [trace gen existsb is_response orb app];
      by eexists.
Qed.

(** C3, on the code.  When the user lookup for the request's identifier
    fails, the server writes the 401 with the fixed message, and then goes
    on: the registered handler is invoked, on an undefined identity and an
    undefined input.  The 401 stays the only response written; the request
    ends in an error raised after it. *)
Theorem encryptedHandle_continues_after_401
    (fn : option RPCUser -> value -> result value) (body : option json)
    (decodedBody e : value) (g : rng) :
  (j ← JSON_parse_text body; autodecode j) = Ok decodedBody ->
  (i ← get_prop decodedBody "id"; getUser i) = Throw e ->
  exists e' tr,
    run (encryptedHandle serverPrivateKey getUser fn body) g = (Throw e', tr)
    /\ tr = [Responded 401 no_such_user_body; HandlerInvoked None VUndefined]
    /\ handler_invoked tr = true
    /\ responses tr = [Responded 401 no_such_user_body].
Proof.
  intros Hbody Hlookup.
  destruct (encryptedHandle_lookup_fails fn body decodedBody e g Hbody Hlookup)
    as [e' He'].
  exists e', [Responded 401 no_such_user_body; HandlerInvoked None VUndefined].
  by rewrite He'.
Qed.


(** The response to a handler that throws, in both modes: status 500, and
    as body the JSON text of [autoencode] of what was thrown. *)
Lemma handle_throws fn body d e w g :
  (j ← JSON_parse_text body; autodecode j) = Ok d ->
  fn d = Throw e -> autoencode e = Ok w ->
  run (handle fn body) g
  = (Ok tt, [HandlerInvoked None d; Responded 500 (JSON_stringify w)]).
Proof.
  intros Hbody Hfn Hw. run_io. rewrite Hbody. cbn. by rewrite Hfn, Hw.
Qed.



End ServerProperties.

(** ** The dispatchers run on the symbolic box *)

Module DispatchRuns.
Import Symbolic SymbolicFacts Samples EnvelopeRuns RPCServer.

Lemma encryptedHandle_continues_after_401_witness :
  exists e' tr,
    @run sodium _ (@encryptedHandle sodium skB nobody returns_true lookup_request)
      0%N = (Throw e', tr)
    /\ tr = [Responded 401 no_such_user_body; HandlerInvoked None VUndefined]
    /\ handler_invoked tr = true
    /\ responses tr = [Responded 401 no_such_user_body].
Proof.
  apply (@encryptedHandle_continues_after_401 sodium skB nobody returns_true
           lookup_request
           (VObj {["id" := VStr "nobody"; "payload" := VBytes [x00]]})
           (new_Error "not found")).
  - vm_compute. reflexivity.
  - vm_compute. reflexivity.
Defined.



(** The transport of the test suite: the request goes to the encrypted
    route of the server, and the first response written comes back. *)
Definition transport (req : request) : response :=
  match responses (@run sodium _ (@encryptedHandle sodium skB the_user
                                     returns_true (req_body req)) 7%N).2 with
  | Responded status body :: _ =>
      {| resp_status := status; resp_statusText := ""; resp_body := body |}
  | _ => {| resp_status := 500; resp_statusText := "no response";
            resp_body := None |}
  end.

Definition logged_in : RPCClient.t :=
  RPCClient.setKeys "test" pkA skA pkB RPCClient.init.

(** An encrypted call with the session keys set reaches the handler and
    brings back its [true]; after [logout] the same call is rejected. *)
Example encrypted_call_then_logout :
  (@RPCClient.encryptedCall sodium "/rpc" transport logged_in "TestEncrypted"
     VUndefined 0%N).1.1 = Ok (VBool true)
  /\ (@RPCClient.encryptedCall sodium "/rpc" transport
        (RPCClient.logout logged_in) "TestEncrypted" VUndefined 0%N)
     = (Throw RPCClient.NotAuthenticated, [], 0%N).
Proof. split; vm_compute; reflexivity. Qed.

End DispatchRuns.

(* ================================================================== *)
(** ** Wire codec: when it throws, what it keeps *)

Lemma for_of_is_ok {A B} (f : A -> result B) l :
  is_ok (for_of f l) = forallb (fun x => is_ok (f x)) l.
Proof.
  induction l as [|x l IH]; [done|]. cbn [for_of forallb].
  destruct (f x); [|done]. cbn [mbind result_bind is_ok andb].
  rewrite <- IH. by destruct (for_of f l).
Qed.

Lemma for_in_is_ok {A B} (f : A -> result B) (o : gmap string A) :
  is_ok (for_in f o) = map_all (fun x => is_ok (f x)) o.
Proof.
  apply eq_true_iff_eq. rewrite map_all_spec. split.
  - intros Hok k x Hk. destruct (is_ok (f x)) eqn:Hx; [done|].
    by rewrite (for_in_throws f o k x Hk Hx) in Hok.
  - intros Hall. destruct (for_in_total f o) as [t ->]; [|done].
    intros k x Hk. specialize (Hall k x Hk). destruct (f x); [by eexists|done].
Qed.

Lemma forallb_ext_Forall {A} (p q : A -> bool) l :
  Forall (fun x => p x = q x) l -> forallb p l = forallb q l.
Proof. induction 1 as [|x l Hx _ IH]; [done|]. simpl. by rewrite Hx, IH. Qed.

Lemma map_all_ext {A} (p q : A -> bool) (m : gmap string A) :
  (forall k x, m !! k = Some x -> p x = q x) -> map_all p m = map_all q m.
Proof.
  intros Hpq. apply eq_true_iff_eq. rewrite !map_all_spec.
  split; intros Hall k x Hk; specialize (Hall k x Hk);
    [by rewrite <- (Hpq k x Hk) | by rewrite (Hpq k x Hk)].
Qed.

Lemma is_ok_bind_Ok {A B} (r : result A) (g : A -> B) :
  is_ok (x ← r; Ok (g x)) = is_ok r.
Proof. by destruct r. Qed.

Lemma autoencode_ok_dates (v : value) : is_ok (autoencode v) = dates_valid v.
Proof.
  induction v as [| |b|x|s|u|t|l IH|m IH|msg m IH] using value_ind'; try done.
  - destruct t as [t|]; [|done]. cbn [autoencode toISOString dates_valid].
    by destruct (JSDate.valid_time t).
  - cbn [autoencode dates_valid]. rewrite is_ok_bind_Ok, for_of_is_ok.
    by apply forallb_ext_Forall.
  - cbn [autoencode dates_valid]. rewrite is_ok_bind_Ok, for_in_is_ok.
    by apply map_all_ext.
  - cbn [autoencode dates_valid]. rewrite is_ok_bind_Ok, for_in_is_ok.
    by apply map_all_ext.
Qed.

(** X1. [autoencode] throws exactly on the values that hold an Invalid
    Date, at any depth; on every other value it returns. *)
Theorem autoencode_is_ok (v : value) : is_ok (autoencode v) = dates_valid v.
Proof. apply autoencode_ok_dates. Qed.

Lemma hex_value_bound c h : hex_value c = Some h -> (h < 16)%N.
Proof.
  unfold hex_value.
  repeat match goal with
  | |- context [(?a <=? ?b)%N] => destruct (N.leb_spec a b)
  end; cbn [andb]; intros [= <-]; lia.
Qed.

Lemma from_hex_is_ok s : is_ok (from_hex s) = hex_pairs s.
Proof.
  unfold from_hex, hex_pairs.
  assert ((is_ok (match hex2bin s with Some u => Ok u
                  | None => Throw (new_Error "invalid input") end)
           = all_hex s && Nat.even (String.length s))
          /\ forall c, is_ok (match hex2bin (String c s) with Some u => Ok u
                              | None => Throw (new_Error "invalid input") end)
                       = all_hex (String c s) && Nat.even (String.length (String c s)))
    as [Hs _]; [|done].
  induction s as [|c' s [IH1 IH2]].
  - split; [done|]. intros c. cbn. by destruct (hex_value c).
  - split; [apply IH2|]. intros c.
    cbn [hex2bin all_hex String.length Nat.even].
    destruct (hex_value c) as [h|] eqn:Hh; [|done]. cbn [mbind option_bind].
    destruct (hex_value c') as [l|] eqn:Hl; [|done]. cbn [mbind option_bind].
    apply hex_value_bound in Hh, Hl.
    destruct (Byte.of_N (16 * h + l)) as [b|] eqn:Hb.
    + cbn [mbind option_bind]. rewrite <- IH1. by destruct (hex2bin s).
    + apply Byte.of_N_None_iff in Hb. lia.
Qed.

Lemma replace_prefix pat s :
  String.prefix pat s = true ->
  replace pat "" s = string_drop (String.length pat) s.
Proof. intros Hp. destruct s; cbn [replace]; by rewrite Hp. Qed.

(** X2. [autodecode] throws exactly on the values that hold, at any depth,
    a string tagged hex$ whose remainder is not an even number of
    hexadecimal digits; nothing else makes it throw. *)
Theorem autodecode_is_ok (v : value) : is_ok (autodecode v) = hex_tags_ok v.
Proof.
  induction v as [| |b|x|s|u|t|l IH|m IH|msg m IH] using value_ind'; try done.
  - cbn [autodecode hex_tags_ok]. unfold startsWith.
    destruct (String.prefix "hex$" s) eqn:Hh.
    + rewrite is_ok_bind_Ok, from_hex_is_ok. by rewrite replace_prefix.
    + by destruct (String.prefix "date$" s).
  - cbn [autodecode hex_tags_ok]. rewrite is_ok_bind_Ok, for_of_is_ok.
    by apply forallb_ext_Forall.
  - cbn [autodecode hex_tags_ok]. rewrite is_ok_bind_Ok, for_in_is_ok.
    by apply map_all_ext.
  - cbn [autodecode hex_tags_ok]. rewrite is_ok_bind_Ok, for_in_is_ok.
    by apply map_all_ext.
Qed.

(** Whatever [autodecode] throws is the error of [sodium.from_hex]. *)
Lemma autodecode_Throw v e :
  autodecode v = Throw e -> e = new_Error "invalid input".
Proof.
  revert e.
  induction v as [| |b|x|s|u|t|l IH|m IH|msg m IH] using value_ind';
    intros e He; cbn [autodecode] in He; try done.
  - destruct (startsWith s "hex$").
    + unfold from_hex in He. destruct (hex2bin _); [done|]. by injection He.
    + by destruct (startsWith s "date$").
  - destruct (for_of autodecode l) as [t|e'] eqn:Hl; [done|]. injection He as ->.
    clear -IH Hl. revert Hl. induction IH as [|x l Hx _ IHl]; [done|].
    cbn [for_of]. destruct (autodecode x) as [y|e'] eqn:Hy.
    + cbn [mbind result_bind]. destruct (for_of autodecode l); [done|].
      intros [= ->]. by apply IHl.
    + intros [= ->]. by apply Hx.
  - destruct (for_in autodecode m) as [t|e'] eqn:Hm; [done|]. injection He as ->.
    revert Hm. unfold for_in.
    apply (map_fold_weak_ind (fun r m' =>
      map_Forall (fun _ x => forall e, autodecode x = Throw e ->
                                       e = new_Error "invalid input") m' ->
      r = Throw e -> e = new_Error "invalid input")); [done| |done].
    intros k x m' r Hk IHr Hall Hr.
    destruct r as [t|e']; cbn [mbind result_bind] in Hr.
    + destruct (autodecode x) as [y|e'] eqn:Hx; [done|]. injection Hr as ->.
      apply (Hall k x); [by rewrite lookup_insert_eq | done].
    + injection Hr as ->. apply IHr; [|done].
      intros k' x' Hk'. apply (Hall k' x').
      rewrite lookup_insert_ne; [done|congruence].
  - destruct (for_in autodecode m) as [t|e'] eqn:Hm; [done|]. injection He as ->.
    revert Hm. unfold for_in.
    apply (map_fold_weak_ind (fun r m' =>
      map_Forall (fun _ x => forall e, autodecode x = Throw e ->
                                       e = new_Error "invalid input") m' ->
      r = Throw e -> e = new_Error "invalid input")); [done| |done].
    intros k x m' r Hk IHr Hall Hr.
    destruct r as [t|e']; cbn [mbind result_bind] in Hr.
    + destruct (autodecode x) as [y|e'] eqn:Hx; [done|]. injection Hr as ->.
      apply (Hall k x); [by rewrite lookup_insert_eq | done].
    + injection Hr as ->. apply IHr; [|done].
      intros k' x' Hk'. apply (Hall k' x').
      rewrite lookup_insert_ne; [done|congruence].
Qed.






(* ================================================================== *)
(** ** Envelope crypto: when sealing throws *)

Section EnvelopeFailures.
Context `{Sodium}.




End EnvelopeFailures.


(** What a loop throws, one of its iterations threw. *)
Lemma for_of_Throw {A B} (f : A -> result B) (P : value -> Prop) l e :
  Forall (fun x => forall e, f x = Throw e -> P e) l ->
  for_of f l = Throw e -> P e.
Proof.
  induction 1 as [|x l Hx _ IHl]; [done|]. cbn [for_of].
  destruct (f x) as [y|e'] eqn:Hy.
  - cbn [mbind result_bind]. destruct (for_of f l); [done|].
    intros [= ->]. by apply IHl.
  - intros [= ->]. by apply Hx.
Qed.

Lemma for_in_Throw {A B} (f : A -> result B) (P : value -> Prop)
    (o : gmap string A) e :
  map_Forall (fun _ x => forall e, f x = Throw e -> P e) o ->
  for_in f o = Throw e -> P e.
Proof.
  unfold for_in.
  apply (map_fold_weak_ind (fun r m' =>
    map_Forall (fun _ x => forall e, f x = Throw e -> P e) m' ->
    r = Throw e -> P e)); [done|].
  intros k x m' r Hk IHr Hall Hr.
  destruct r as [t|e']; cbn [mbind result_bind] in Hr.
  - destruct (f x) as [y|e'] eqn:Hx; [done|]. injection Hr as ->.
    apply (Hall k x); [by rewrite lookup_insert_eq | done].
  - injection Hr as ->. apply IHr; [|done].
    intros k' x' Hk'. apply (Hall k' x').
    rewrite lookup_insert_ne; [done|congruence].
Qed.

(** Whatever [autoencode] throws is the RangeError of [toISOString]. *)
Lemma autoencode_Throw v e :
  autoencode v = Throw e -> e = new_Error "Invalid time value".
Proof.
  revert e.
  induction v as [| |b|x|s|u|t|l IH|m IH|msg m IH] using value_ind';
    intros e He; cbn [autoencode] in He; try done.
  - destruct t as [t|]; cbn in He; [|by injection He].
    destruct (JSDate.valid_time t); [done|]. by injection He.
  - destruct (for_of autoencode l) as [t|e'] eqn:Hl; [done|]. injection He as ->.
    exact (for_of_Throw autoencode (fun e => e = new_Error "Invalid time value")
             _ _ IH Hl).
  - destruct (for_in autoencode m) as [t|e'] eqn:Hm; [done|]. injection He as ->.
    exact (for_in_Throw autoencode (fun e => e = new_Error "Invalid time value")
             _ _ IH Hm).
  - destruct (for_in autoencode m) as [t|e'] eqn:Hm; [done|]. injection He as ->.
    exact (for_in_Throw autoencode (fun e => e = new_Error "Invalid time value")
             _ _ IH Hm).
Qed.

(* ================================================================== *)
(** ** Server dispatch: the unencrypted route *)

Section HandleProperties.
Context `{Sodium}.
Import RPCServer.

Ltac run_handle :=
  unfold run, handle, try_catch, invoke, res_json, lift, io_ret, mbind,
    io_mbind, io_bind in *;
  cbn [trace gen existsb is_response orb app].

Lemma stringify_empty_object : JSON_stringify (VObj ∅) = Some (JObject ∅).
Proof. cbn [JSON_stringify]. by rewrite omap_empty. Qed.

(** What the decoding of a request body throws is an [Error] without
    enumerable properties. *)
Lemma body_Throw body e :
  (j ← JSON_parse_text body; autodecode j) = Throw e ->
  exists msg, e = new_Error msg.
Proof.
  destruct body as [j|]; cbn.
  - intros He. apply autodecode_Throw in He. by eexists.
  - intros [= <-]. by eexists.
Qed.

Lemma handle_returns fn body d out w g :
  (j ← JSON_parse_text body; autodecode j) = Ok d ->
  fn d = Ok out -> autoencode out = Ok w ->
  run (handle fn body) g
  = (Ok tt, [HandlerInvoked None d; Responded 200 (JSON_stringify w)]).
Proof.
  intros Hbody Hfn Hw. run_handle. rewrite Hbody. cbn. by rewrite Hfn, Hw.
Qed.

Lemma handle_bad_body fn body e g :
  (j ← JSON_parse_text body; autodecode j) = Throw e ->
  run (handle fn body) g = (Ok tt, [Responded 500 (Some (JObject ∅))]).
Proof.
  intros Hbody. destruct (body_Throw body e Hbody) as [msg ->].
  run_handle. rewrite Hbody. cbn -[autoencode JSON_stringify].
  rewrite autoencode_new_Error. cbn -[JSON_stringify].
  by rewrite stringify_empty_object.
Qed.

(** X6. When the request body decodes and the handler returns, the
    unencrypted route invokes the handler once, on the decoded body, and
    answers 200 with the JSON text of [autoencode] of what it returned. *)
Theorem handle_success
    (fn : value -> result value) (body : option json) (d out w : value)
    (g : rng) :
  (j ← JSON_parse_text body; autodecode j) = Ok d ->
  fn d = Ok out -> autoencode out = Ok w ->
  run (handle fn body) g
  = (Ok tt, [HandlerInvoked None d; Responded 200 (JSON_stringify w)]).
Proof. apply handle_returns. Qed.

(** X7. A request body that is not JSON, or whose decoding throws, never
    reaches the handler of the unencrypted route: the answer is 500 with the
    body [{}]. *)
Theorem handle_rejects_bad_body
    (fn : value -> result value) (body : option json) (e : value) (g : rng) :
  (j ← JSON_parse_text body; autodecode j) = Throw e ->
  run (handle fn body) g = (Ok tt, [Responded 500 (Some (JObject ∅))])
  /\ handler_invoked (run (handle fn body) g).2 = false.
Proof.
  intros Hbody. by rewrite (handle_bad_body fn body e g Hbody).
Qed.

(** X8. The unencrypted route never writes, nor attempts, a second
    response, and invokes the handler at most once.  Every request ends in
    one of four ways: 500 without the handler (bad body); the handler, then
    200; the handler, then 500; or the handler and no response at all, which
    happens only when the handler throws a value that holds an Invalid Date,
    so that encoding it throws inside the catch block. *)
Theorem handle_outcomes
    (fn : value -> result value) (body : option json) (g : rng) :
  let '(res, tr) := run (handle fn body) g in
  (res = Ok tt /\ tr = [Responded 500 (Some (JObject ∅))])
  \/ (exists d b, res = Ok tt /\ tr = [HandlerInvoked None d; Responded 200 b])
  \/ (exists d b, res = Ok tt /\ tr = [HandlerInvoked None d; Responded 500 b])
  \/ (exists d e e', res = Throw e' /\ tr = [HandlerInvoked None d]
        /\ fn d = Throw e /\ dates_valid e = false).
Proof.
  destruct (j ← JSON_parse_text body; autodecode j) as [d|e] eqn:Hbody.
  - destruct (fn d) as [out|e] eqn:Hfn.
    + destruct (autoencode out) as [w|e] eqn:Hw.
      * rewrite (handle_returns fn body d out w g Hbody Hfn Hw).
        right; left. by eexists _, _.
      * apply autoencode_Throw in Hw as Hmsg. subst e.
        run_handle. rewrite Hbody. cbn -[autoencode JSON_stringify].
        rewrite Hfn, Hw, autoencode_new_Error. cbn -[JSON_stringify].
        right; right; left. by eexists _, _.
    + destruct (autoencode e) as [w|e'] eqn:Hw.
      * run_handle. rewrite Hbody. cbn. rewrite Hfn, Hw. cbn.
        right; right; left. by eexists _, _.
      * run_handle. rewrite Hbody. cbn. rewrite Hfn, Hw. cbn.
        right; right; right. exists d, e, e'.
        split; [done|]. split; [done|]. split; [done|].
        rewrite <- autoencode_ok_dates. by rewrite Hw.
  - rewrite (handle_bad_body fn body e g Hbody). by left.
Qed.

End HandleProperties.

Lemma handle_success_witness :
  @RPCServer.run SymbolicFacts.sodium _
    (@RPCServer.handle SymbolicFacts.sodium (fun _ => Ok (VBool true))
       (Some (JObject ∅))) 0%N
  = (Ok tt, [RPCServer.HandlerInvoked None (VObj ∅);
             RPCServer.Responded 200 (Some (JBool true))]).
Proof.
  apply (@handle_success SymbolicFacts.sodium (fun _ => Ok (VBool true))
           (Some (JObject ∅)) (VObj ∅) (VBool true) (VBool true) 0%N).
  - vm_compute; reflexivity.
  - reflexivity.
  - reflexivity.
Defined.

Lemma handle_rejects_bad_body_witness :
  @RPCServer.run SymbolicFacts.sodium _
    (@RPCServer.handle SymbolicFacts.sodium (fun _ => Ok (VBool true))
       (Some (JArray [JString "hex$0g"]))) 0%N
  = (Ok tt, [RPCServer.Responded 500 (Some (JObject ∅))]).
Proof.
  apply (@handle_rejects_bad_body SymbolicFacts.sodium (fun _ => Ok (VBool true))
           (Some (JArray [JString "hex$0g"])) (new_Error "invalid input") 0%N).
  vm_compute; reflexivity.
Defined.

(* ================================================================== *)
(** ** Server dispatch: the encrypted route *)

Section EncryptedHandleProperties.
Context `{Sodium}.
Import RPCServer.

Variable serverPrivateKey : bytes.
Variable getUser : value -> result RPCUser.

Ltac run_encrypted :=
  unfold run, encryptedHandle, resolve, try_catch, io_encrypt, invoke,
    res_json, lift, io_ret, mbind, io_mbind, io_bind in *;
  cbn [trace gen existsb is_response orb app].

Lemma encryptedHandle_returns fn body d u x out e g :
  (j ← JSON_parse_text body; autodecode j) = Ok d ->
  (i ← get_prop d "id"; getUser i) = Ok u ->
  (p ← get_prop d "payload";
   decrypt_any p (user_publicKey u) serverPrivateKey) = Ok x ->
  fn (Some u) x = Ok out ->
  (encrypt (match out with VUndefined => VObj ∅ | _ => out end)
     (user_publicKey u) serverPrivateKey g).1 = Ok e ->
  run (encryptedHandle serverPrivateKey getUser fn body) g
  = (Ok tt, [HandlerInvoked (Some u) x;
             Responded 200 (Some (JString ("hex$" +:+ to_hex e)))]).
Proof.
  intros Hbody Hu Hx Hfn He. run_encrypted. rewrite Hbody, Hu, Hx.
  cbn -[autoencode JSON_stringify encrypt]. rewrite Hfn.
  cbn -[autoencode JSON_stringify encrypt].
  destruct (encrypt _ (user_publicKey u) serverPrivateKey g) as [r g'].
  cbn [fst] in He. subst r. done.
Qed.

(** X9. When the request body decodes, the lookup resolves a user, the
    payload opens under that user's key and the handler returns, the
    encrypted route invokes the handler once, on the resolved user and the
    opened input, and answers 200 with the hex-tagged envelope that [encrypt]
    seals for the user's key from the result, [{}] standing for a result
    undefined. *)
Theorem encryptedHandle_success
    (fn : option RPCUser -> value -> result value) (body : option json)
    (d x out : value) (u : RPCUser) (e : bytes) (g : rng) :
  (j ← JSON_parse_text body; autodecode j) = Ok d ->
  (i ← get_prop d "id"; getUser i) = Ok u ->
  (p ← get_prop d "payload";
   decrypt_any p (user_publicKey u) serverPrivateKey) = Ok x ->
  fn (Some u) x = Ok out ->
  (encrypt (match out with VUndefined => VObj ∅ | _ => out end)
     (user_publicKey u) serverPrivateKey g).1 = Ok e ->
  run (encryptedHandle serverPrivateKey getUser fn body) g
  = (Ok tt, [HandlerInvoked (Some u) x;
             Responded 200 (Some (JString ("hex$" +:+ to_hex e)))]).
Proof. apply encryptedHandle_returns. Qed.



End EncryptedHandleProperties.

(* ================================================================== *)
(** ** Bodies on the wire *)

Lemma for_in_empty {A B} (f : A -> result B) : for_in f ∅ = Ok ∅.
Proof. unfold for_in. by rewrite map_fold_empty. Qed.

Lemma for_in_insert_Ok {A B} (f : A -> result B) (o : gmap string A) t k x y :
  for_in f o = Ok t -> f x = Ok y ->
  for_in f (<[k := x]> o) = Ok (<[k := y]> t).
Proof.
  intros Ht Hy. apply for_in_intro. intros k'.
  destruct (decide (k' = k)) as [->|Hne].
  - rewrite !lookup_insert_eq. by constructor.
  - rewrite !lookup_insert_ne by done. by apply for_in_lookup.
Qed.

(** A supported value whose numbers JSON writes exactly, sent as a body,
    is read back as itself at the other end. *)
Lemma over_the_wire v :
  supported v = true -> json_numbers v = true ->
  exists w, autoencode v = Ok w
            /\ (j ← JSON_parse_text (JSON_stringify w); autodecode j) = Ok v.
Proof.
  intros Hs Hn. destruct (autoencode_wire v Hs) as (w & Hw & Hwire).
  pose proof (autoencode_json_numbers v w Hw Hn) as Hwn.
  pose proof (JSON_roundtrip w Hwire Hwn) as Hj.
  pose proof (codec_roundtrip v Hs) as Hrt. rewrite Hw in Hrt.
  exists w. split; [done|].
  destruct (JSON_stringify w) as [j|]; [|done]. injection Hj as Hj.
  cbn [JSON_parse_text mbind result_bind]. by rewrite Hj.
Qed.

(** The RPC payload of an encrypted call, on the wire and back. *)
Lemma rpc_payload_wire (uid : string) (e : bytes) :
  let data : value :=
    VObj (<["payload" := VBytes e]> (<["id" := VStr uid]> ∅)) in
  let j := JObject (<["payload" := JString ("hex$" +:+ to_hex e)]>
                      (<["id" := JString uid]> ∅)) in
  exists w, autoencode data = Ok w /\ JSON_stringify w = Some j
    /\ (untagged uid = true ->
        (j' ← JSON_parse_text (Some j); autodecode j') = Ok data).
Proof.
  cbn zeta.
  exists (VObj (<["payload" := VStr ("hex$" +:+ to_hex e)]>
                 (<["id" := VStr uid]> ∅))).
  split; [|split].
  - cbn [autoencode].
    rewrite (for_in_insert_Ok autoencode _ (<["id" := VStr uid]> ∅) _ _
               (VStr ("hex$" +:+ to_hex e))); [done| |done].
    by apply for_in_insert_Ok; [apply for_in_empty|].
  - cbn [JSON_stringify].
    rewrite (omap_insert_Some _ _ _ _ (JString ("hex$" +:+ to_hex e))) by done.
    rewrite (omap_insert_Some _ _ _ _ (JString uid)) by done.
    by rewrite omap_empty.
  - intros Huid. cbn [JSON_parse_text mbind result_bind JSON_parse].
    rewrite !fmap_insert, fmap_empty. cbn [JSON_parse autodecode].
    rewrite (for_in_insert_Ok autodecode _ (<["id" := VStr uid]> ∅) _ _
               (VBytes e)); [done| |].
    + apply for_in_insert_Ok; [apply for_in_empty|].
      by apply autodecode_untagged.
    + by rewrite autodecode_hex_tag, from_hex_to_hex.
Qed.

(* ================================================================== *)
(** ** Client: raw calls *)

Section RawCallProperties.
Context `{Sodium}.
Import RPCClient.

Variable baseURL : string.
Variable fetch : request -> response.

Lemma dates_valid_sent data : dates_valid (sent data) = dates_valid data.
Proof. by destruct data. Qed.

(** X11. A raw call issues exactly one request, to the URL made of the
    base URL and the endpoint's name, whose body is the JSON text of
    [autoencode] of the data ([{}] when the data is undefined); when the
    data holds an Invalid Date it issues none and is rejected. *)
Theorem rawCall_requests (rpcName : string) (data : value) :
  if dates_valid data
  then exists w,
         autoencode (sent data) = Ok w
         /\ (rawCall baseURL fetch rpcName data).2
            = [{| req_url := baseURL +:+ "/" +:+ rpcName;
                  req_body := JSON_stringify w |}]
         /\ (data = VUndefined -> JSON_stringify w = Some (JObject ∅))
  else rawCall baseURL fetch rpcName data
       = (Throw (new_Error "Invalid time value"), []).
Proof.
  rewrite <- dates_valid_sent, <- autoencode_ok_dates. unfold rawCall. fold (sent data).
  destruct (autoencode (sent data)) as [w|e] eqn:Hw; cbn [is_ok].
  - exists w. split; [done|]. split; [done|]. intros ->.
    cbn in Hw. rewrite for_in_empty in Hw. injection Hw as <-.
    cbn [JSON_stringify]. by rewrite omap_empty.
  - by rewrite (autoencode_Throw _ _ Hw).
Qed.

(** X12. A response whose status is not 200 never makes a raw call return
    a value: the call is rejected, with the status text as the error when
    the response body is JSON that decodes, whatever that body says. *)
Theorem rawCall_non_200 (rpcName : string) (data w : value) :
  autoencode (sent data) = Ok w ->
  let r := fetch {| req_url := baseURL +:+ "/" +:+ rpcName;
                    req_body := JSON_stringify w |} in
  resp_status r <> 200 ->
  is_ok (rawCall baseURL fetch rpcName data).1 = false
  /\ forall j x, resp_body r = Some j -> autodecode (JSON_parse j) = Ok x ->
       (rawCall baseURL fetch rpcName data).1
       = Throw (new_Error (resp_statusText r)).
Proof.
  intros Hw r Hst. unfold rawCall. fold (sent data). rewrite Hw. cbn [fst].
  fold r. apply Nat.eqb_neq in Hst. rewrite Hst. cbn [negb].
  split.
  - destruct (resp_body r) as [j|]; [|done]. cbn.
    by destruct (autodecode (JSON_parse j)).
  - intros j x -> Hx. cbn. by rewrite Hx.
Qed.

End RawCallProperties.

(* ================================================================== *)
(** ** Client against server *)

Section EndToEnd.
Context `{Sodium}.
Import RPCClient RPCServer Transport.

Variable baseURL : string.

Lemma first_response_200 ev b :
  is_response ev = false ->
  first_response [ev; Responded 200 b]
  = {| resp_status := 200; resp_statusText := "OK"; resp_body := b |}.
Proof. intros Hev. unfold first_response, responses. cbn. by rewrite Hev. Qed.

Lemma first_response_500 ev b :
  is_response ev = false ->
  first_response [ev; Responded 500 b]
  = {| resp_status := 500; resp_statusText := "Internal Server Error";
       resp_body := b |}.
Proof. intros Hev. unfold first_response, responses. cbn. by rewrite Hev. Qed.


(** X14. An unencrypted handler that returns undefined makes the call
    fail although the server answers 200: [res.json(undefined)] sends no
    JSON text, and the client's [r.json()] throws on it. *)
Theorem call_handle_void
    (fn : value -> result value) (name : string) (args : value) (g : rng) :
  supported (sent args) = true -> json_numbers (sent args) = true ->
  fn (sent args) = Ok VUndefined ->
  (call baseURL (serve (handle fn) g) name args).1 = Throw SyntaxError
  /\ exists w, autoencode (sent args) = Ok w
       /\ (run (handle fn (JSON_stringify w)) g).2
          = [HandlerInvoked None (sent args); Responded 200 None].
Proof.
  intros Hs Hn Hfn.
  destruct (over_the_wire (sent args) Hs Hn) as (w & Hw & Hback).
  pose proof (handle_returns fn _ (sent args) VUndefined VUndefined g
                Hback Hfn eq_refl) as Hrun.
  split.
  - unfold call, rawCall. fold (sent args). rewrite Hw. cbn [fst].
    unfold serve. cbn [req_body]. rewrite Hrun. cbn [snd].
    by rewrite first_response_200.
  - exists w. split; [done|]. by rewrite Hrun.
Qed.

(** X15. An unencrypted handler that throws an [Error] makes the call
    fail with the status text of the 500 as its only content, whatever the
    message of the error thrown. *)
Theorem call_handle_throws
    (fn : value -> result value) (name : string) (args : value) (msg : string)
    (g : rng) :
  supported (sent args) = true -> json_numbers (sent args) = true ->
  fn (sent args) = Throw (new_Error msg) ->
  (call baseURL (serve (handle fn) g) name args).1
  = Throw (new_Error "Internal Server Error").
Proof.
  intros Hs Hn Hfn.
  destruct (over_the_wire (sent args) Hs Hn) as (w & Hw & Hback).
  unfold call, rawCall. fold (sent args). rewrite Hw. cbn [fst].
  unfold serve. cbn [req_body].
  rewrite (handle_throws fn _ (sent args) (new_Error msg) (VObj ∅) g Hback Hfn
             (autoencode_new_Error msg)).
  cbn [snd]. rewrite first_response_500 by done.
  rewrite stringify_empty_object.
  cbn [resp_body resp_status JSON_parse_text mbind result_bind JSON_parse].
  rewrite fmap_empty. cbn [autodecode]. by rewrite for_in_empty.
Qed.

End EndToEnd.

Section EncryptedEndToEnd.
Context `{Sodium}.
Import RPCClient RPCServer Transport.

Variable baseURL : string.

Lemma encrypt_pair v pk sk r e :
  (encrypt v pk sk r).1 = Ok e -> encrypt v pk sk r = (Ok e, (encrypt v pk sk r).2).
Proof. destruct (encrypt v pk sk r) as [x y]. cbn. by intros ->. Qed.

(** The one request of an encrypted call, given the envelope sealed. *)
Lemma encryptedCall_sends fetch uid pkU skU pkS c0 name args r e :
  (encrypt (sent args) pkS skU r).1 = Ok e ->
  let req := {| req_url := baseURL +:+ "/" +:+ name;
                req_body := Some (JObject
                  (<["payload" := JString ("hex$" +:+ to_hex e)]>
                     (<["id" := JString uid]> ∅))) |} in
  encryptedCall baseURL fetch (setKeys uid pkU skU pkS c0) name args r
  = ((j ← JSON_parse_text (resp_body (fetch req));
      rData ← autodecode j;
      resp ← (if negb (resp_status (fetch req) =? 200)%nat
              then Throw (new_Error (resp_statusText (fetch req)))
              else Ok rData);
      decrypt_any resp pkS skU),
     [req], (encrypt (sent args) pkS skU r).2).
Proof.
  intros He req. unfold encryptedCall.
  replace (isloggedIn (setKeys uid pkU skU pkS c0)) with true by done.
  cbn [negb setKeys userID privateKey serverKey default from_option Datatypes.id].
  fold (sent args). rewrite (encrypt_pair _ _ _ _ _ He).
  destruct (rpc_payload_wire uid e) as (w & Hw & Hj & _).
  unfold rawCall. cbn zeta in Hw. cbv beta iota. rewrite Hw, Hj. fold req.
  f_equal. f_equal.
  destruct (JSON_parse_text (resp_body (fetch req))) as [j|]; [|done].
  cbn [mbind result_bind]. destruct (autodecode j); [|done].
  cbn [mbind result_bind]. by destruct (negb _).
Qed.

(** X16. The request of an encrypted call carries the caller's identifier
    in clear and, as payload, the hex-tagged envelope sealed from the input
    ([{}] for none) for the server's key: one request, of body
    [{"id": uid, "payload": "hex$..."}]. *)
Theorem encryptedCall_request
    (fetch : request -> response) (uid : string) (pkU skU pkS : bytes)
    (c0 : RPCClient.t) (name : string) (args : value) (r : rng) (e : bytes) :
  (encrypt (sent args) pkS skU r).1 = Ok e ->
  (encryptedCall baseURL fetch (setKeys uid pkU skU pkS c0) name args r).1.2
  = [{| req_url := baseURL +:+ "/" +:+ name;
        req_body := Some (JObject
          (<["payload" := JString ("hex$" +:+ to_hex e)]>
             (<["id" := JString uid]> ∅))) |}].
Proof.
  intros He. by rewrite (encryptedCall_sends fetch uid pkU skU pkS c0 name args r e He).
Qed.


Lemma first_response_401 b ev :
  is_response ev = false ->
  first_response [Responded 401 b; ev]
  = {| resp_status := 401; resp_statusText := "Unauthorized"; resp_body := b |}.
Proof. done. Qed.

Lemma no_such_user_decodes :
  (j ← JSON_parse_text no_such_user_body; autodecode j)
  = Ok (VObj {["message" := VStr "No such user found."]}).
Proof. vm_compute. reflexivity. Qed.

(** What the caller gets when the server's first response is the 401. *)
Lemma encryptedCall_unauthorized callback uid pkU skU pkS c0 name args r g e ev e' :
  (encrypt (sent args) pkS skU r).1 = Ok e ->
  is_response ev = false ->
  run (callback (Some (JObject (<["payload" := JString ("hex$" +:+ to_hex e)]>
                                  (<["id" := JString uid]> ∅))))) g
  = (e', [Responded 401 no_such_user_body; ev]) ->
  (encryptedCall baseURL (serve callback g) (setKeys uid pkU skU pkS c0)
     name args r).1.1
  = Throw (new_Error "Unauthorized").
Proof.
  intros He Hev Hrun.
  rewrite (encryptedCall_sends _ uid pkU skU pkS c0 name args r e He).
  cbn [fst]. unfold serve. cbn [req_body]. rewrite Hrun. cbn [snd].
  rewrite first_response_401 by done. cbn [resp_body resp_status resp_statusText].
  pose proof no_such_user_decodes as Hd. unfold mbind in *.
  destruct (JSON_parse_text no_such_user_body) as [j|]; [|done].
  cbn [result_bind] in *. by rewrite Hd.
Qed.

(** X19. An encrypted call whose identifier the server's lookup does not
    resolve is rejected with the status text of the 401, "Unauthorized". *)
Theorem encryptedCall_unknown_user
    (getUser : value -> result RPCUser)
    (fn : option RPCUser -> value -> result value)
    (uid : string) (skU pkU skS pkS : bytes) (err : value)
    (c0 : RPCClient.t) (name : string) (args : value) (r g : rng) :
  box_keypair skU pkU -> box_keypair skS pkS ->
  untagged uid = true ->
  supported (sent args) = true -> json_numbers (sent args) = true ->
  getUser (VStr uid) = Throw err ->
  (encryptedCall baseURL (serve (encryptedHandle skS getUser fn) g)
     (setKeys uid pkU skU pkS c0) name args r).1.1
  = Throw (new_Error "Unauthorized").
Proof.
  intros HU HS Huid Hs Hn Hget.
  destruct (decrypt_encrypt_value (sent args) skU pkU skS pkS r Hs Hn HU HS)
    as (e1 & He1 & _).
  destruct (rpc_payload_wire uid e1) as (w & _ & _ & Hback).
  specialize (Hback Huid). cbn zeta in Hback.
  destruct (encryptedHandle_lookup_fails skS getUser fn _ _ err g Hback)
    as [e' Hrun].
  { cbn [get_prop]. rewrite lookup_insert_ne by done.
    rewrite lookup_insert_eq. cbn [default mbind result_bind]. done. }
  exact (encryptedCall_unauthorized _ uid pkU skU pkS c0 name args r g e1
           (HandlerInvoked None VUndefined) (Throw e') He1 eq_refl Hrun).
Qed.


End EncryptedEndToEnd.

(* ================================================================== *)
(** ** Server lifecycle: the shutdown promise *)

(** X18. The promise returned by the shutdown function that [listen] hands
    out is resolved exactly when [close] calls back with no error, and
    rejected with the error otherwise (null included); the [reject] that
    follows the [resolve] in the callback does not undo it, and a second
    call back changes nothing. *)
Theorem shutdown_settles (err err' : value) :
  (err = VUndefined -> Shutdown.closed err = Shutdown.Resolved VUndefined)
  /\ (err <> VUndefined -> Shutdown.closed err = Shutdown.Rejected err)
  /\ Shutdown.closed err <> Shutdown.Pending
  /\ Shutdown.on_close err' (Shutdown.closed err) = Shutdown.closed err.
Proof.
  unfold Shutdown.closed, Shutdown.on_close.
  repeat split.
  - by intros ->.
  - intros Hne. by destruct err.
  - by destruct err.
  - by destruct err, err'.
Qed.

Lemma shutdown_settles_witness :
  Shutdown.closed VUndefined = Shutdown.Resolved VUndefined
  /\ Shutdown.closed VNull = Shutdown.Rejected VNull.
Proof.
  split.
  - by apply (shutdown_settles VUndefined VNull).
  - by apply (shutdown_settles VNull VNull).
Defined.

(* ================================================================== *)
(** ** The dispatchers run on the symbolic box, continued *)

Module ExtraRuns.
Import Symbolic SymbolicFacts Samples RPCServer Transport.

(** The request an encrypted call of the test user sends for no input. *)
Definition request_body (sk pk : bytes) : option json :=
  match (@encrypt sodium (VObj ∅) pk sk 0%N).1 with
  | Ok e => Some (JObject (<["payload" := JString ("hex$" +:+ to_hex e)]>
                            (<["id" := JString "test"]> ∅)))
  | Throw _ => None
  end.

Lemma encryptedHandle_success_witness :
  exists e,
    @run sodium _ (@encryptedHandle sodium skB the_user returns_true
                     (request_body skA pkB)) 7%N
    = (Ok tt, [HandlerInvoked (Some test_user) (VObj ∅);
               Responded 200 (Some (JString ("hex$" +:+ to_hex e)))]).
Proof.
  eexists.
  eapply (@encryptedHandle_success sodium skB the_user returns_true
            (request_body skA pkB) _ (VObj ∅) (VBool true) test_user _ 7%N).
  - vm_compute; reflexivity.
  - vm_compute; reflexivity.
  - vm_compute; reflexivity.
  - reflexivity.
  - vm_compute; reflexivity.
Defined.


Definition answers_500 (_ : request) : response :=
  {| resp_status := 500; resp_statusText := "Internal Server Error";
     resp_body := Some (JObject {["detail" := JString "stack trace"]}) |}.

Lemma rawCall_non_200_witness :
  (@RPCClient.rawCall "/rpc" answers_500 "Test" VUndefined).1
  = Throw (new_Error "Internal Server Error").
Proof.
  eapply (@rawCall_non_200 "/rpc" answers_500 "Test" VUndefined (VObj ∅)).
  - reflexivity.
  - vm_compute; discriminate.
  - reflexivity.
  - vm_compute; reflexivity.
Defined.


Lemma call_handle_void_witness :
  (@RPCClient.call "/rpc"
     (@serve sodium (@handle sodium (fun _ => Ok VUndefined)) 7%N)
     "TestVoid" VUndefined).1 = Throw SyntaxError.
Proof.
  apply (@call_handle_void sodium "/rpc" (fun _ => Ok VUndefined) "TestVoid"
           VUndefined 7%N); reflexivity.
Defined.

Lemma call_handle_throws_witness :
  (@RPCClient.call "/rpc" (@serve sodium (@handle sodium (fails "oh no")) 7%N)
     "TestFails" VUndefined).1
  = Throw (new_Error "Internal Server Error").
Proof.
  apply (@call_handle_throws sodium "/rpc" (fails "oh no") "TestFails"
           VUndefined "oh no" 7%N); reflexivity.
Defined.

Lemma encryptedCall_request_witness :
  exists e,
    (@RPCClient.encryptedCall sodium "/rpc" answers_500
       (RPCClient.setKeys "test" pkA skA pkB RPCClient.init) "TestEncrypted"
       VUndefined 0%N).1.2
    = [{| req_url := "/rpc/TestEncrypted";
          req_body := Some (JObject
            (<["payload" := JString ("hex$" +:+ to_hex e)]>
               (<["id" := JString "test"]> ∅))) |}].
Proof.
  eexists.
  eapply (@encryptedCall_request sodium "/rpc" answers_500 "test" pkA skA pkB
            RPCClient.init "TestEncrypted" VUndefined 0%N).
  vm_compute; reflexivity.
Defined.


Lemma encryptedCall_unknown_user_witness :
  (@RPCClient.encryptedCall sodium "/rpc"
     (@serve sodium (@encryptedHandle sodium skB nobody returns_true) 7%N)
     (RPCClient.setKeys "ghost" pkA skA pkB RPCClient.init) "TestEncrypted"
     VUndefined 0%N).1.1
  = Throw (new_Error "Unauthorized").
Proof.
  apply (@encryptedCall_unknown_user sodium "/rpc" nobody returns_true
           "ghost" skA pkA skB pkB (new_Error "not found") RPCClient.init
           "TestEncrypted" VUndefined 0%N 7%N).
  - split; reflexivity.
  - split; reflexivity.
  - reflexivity.
  - reflexivity.
  - reflexivity.
  - reflexivity.
Defined.


End ExtraRuns.
